(** * Twitch-Plays-Chess: vote ledger, game registry and move arbiter

    A shallow embedding of [src/bots/botChess.py] (class [BotChess]) and
    [src/bots/botHandler.py] (class [BotHandler]).

    - Python dictionaries are insertion-ordered association lists without
      duplicate keys ([list(d.keys())] and [moves[0]] depend on the order).
    - Python integers are [Z]; the quotient [resign_votes / total_votes] is
      the correctly rounded binary64 quotient, computed with the IEEE 754
      specification of the standard library ([SpecFloat]).
    - Calls to the Lichess client are recorded in a trace of [api_call]s;
      what the server answers is an argument of the embedded method.
    - A Python exception that escapes a method is the [Raised] result.
    - python-chess enters through two parameters, [SAN_REGEX_match] and
      [parse_san]; the examples instantiate them on the start position. *)

From Stdlib Require Import ZArith List String Ascii Bool Lia.
From Stdlib Require Import Floats.SpecFloat.
Import ListNotations.

Local Open Scope Z_scope.
Local Open Scope string_scope.
Local Open Scope list_scope.

(** ** Python dictionaries *)

(** Keys of a dictionary: a type with a boolean equality that decides
    Leibniz equality (what [__eq__] and [__hash__] give for [str] and for
    [chess.Move]). *)
Class PyKey (K : Type) := { key_eqb : K -> K -> bool }.

Class PyKeyLaws (K : Type) `{PyKey K} := {
  key_eqb_spec : forall a b : K, key_eqb a b = true <-> a = b
}.

#[export] Instance string_PyKey : PyKey string := {| key_eqb := String.eqb |}.

Module PyDict.
Section Dict.
Context {K V : Type} `{PyKey K}.

Definition dict := list (K * V).

(** [d.get(k)], and [d[k]] when the key is present. *)
Fixpoint get (d : dict) (k : K) : option V :=
  match d with
  | [] => None
  | (k', v) :: r => if key_eqb k' k then Some v else get r k
  end.

(** [k in d.keys()] *)
Definition mem (d : dict) (k : K) : bool :=
  match get d k with Some _ => true | None => false end.

(** [d[k] = v]: an existing key keeps its place, a new key goes last. *)
Fixpoint set (d : dict) (k : K) (v : V) : dict :=
  match d with
  | [] => [(k, v)]
  | (k', v') :: r =>
      if key_eqb k' k then (k', v) :: r else (k', v') :: set r k v
  end.

(** [del d[k]] (the callers only delete keys that are present). *)
Fixpoint del (d : dict) (k : K) : dict :=
  match d with
  | [] => []
  | (k', v') :: r => if key_eqb k' k then r else (k', v') :: del r k
  end.

(** [list(d.keys())] *)
Definition keys (d : dict) : list K := map fst d.

(** The representation invariant: no key occurs twice. *)
Definition wf (d : dict) : Prop := NoDup (keys d).
End Dict.
Arguments dict : clear implicits.
End PyDict.

Abbreviation dict := PyDict.dict.

(** ** Python floats *)

Module PyFloat.
Definition prec : Z := 53.
Definition emax : Z := 1024.

Definition float := spec_float.

(** [float >= float] *)
Definition ge (x y : float) : bool := SFleb y x.

Definition of_int (z : Z) : float :=
  match z with
  | Z0 => S754_zero false
  | Zpos p => S754_finite false p 0
  | Zneg p => S754_finite true p 0
  end.

(** [a / b] on two [int]s: the exact quotient rounded to the nearest
    binary64, ties to even (CPython's [long_true_divide]). The mantissas
    are the integers themselves; [SFdiv] scales the dividend before
    dividing and rounds once. With [b = 0] Python raises
    [ZeroDivisionError]; the only division of the bot stands behind the
    test [total_votes >= 1], and here the result is then a NaN or an
    infinity that nothing looks at. *)
Definition int_truediv (a b : Z) : float :=
  SFdiv prec emax (of_int a) (of_int b).

(** The literal [0.1]: [0x1.999999999999ap-4]. *)
Definition lit_0_1 : float := S754_finite false 7205759403792794 (-56).

(** The mantissa of the literal, and the least numerator over [2 ^ 57]
    that rounds up to it: [2 * lit_mantissa - 1]. *)
Definition lit_mantissa : Z := 7205759403792794.
Definition tie_numerator : Z := 14411518807585587.

(** The float made of a rounded mantissa of at most 54 bits. *)
Definition rounded (m1 e : Z) : spec_float :=
  if (m1 =? 0)%Z then S754_zero false
  else if (m1 <? 2 ^ 53)%Z then S754_finite false (Z.to_pos m1) e
  else S754_finite false (Z.to_pos (2 ^ 52)) (e + 1).

(** The location after one more bit is shifted out. *)
Definition shifted_loc (q : Z) (loc : location) : location :=
  match Z.odd q, loc with
  | false, loc_Exact => loc_Exact
  | false, loc_Inexact _ => loc_Inexact Lt
  | true, loc_Exact => loc_Inexact Eq
  | true, loc_Inexact _ => loc_Inexact Gt
  end.
End PyFloat.

(** ** Exceptions *)

Inductive py_exception := IndexError | KeyError | ZeroDivisionError.

(** The outcome of a method that may let an exception escape. *)
Inductive result (A : Type) :=
| Value (a : A)
| Raised (e : py_exception).
Arguments Value {A} a.
Arguments Raised {A} e.

Definition bind {A B : Type} (x : result A) (f : A -> result B) : result B :=
  match x with
  | Value a => f a
  | Raised e => Raised e
  end.

Notation "x <- c1 ;; c2" := (bind c1 (fun x => c2))
  (at level 61, c1 at next level, right associativity).

Definition returns {A : Type} (x : result A) : Prop :=
  exists a, x = Value a.

(** ** Strings *)

Definition char_in (lo hi : nat) (c : ascii) : bool :=
  (Nat.leb lo (nat_of_ascii c) && Nat.leb (nat_of_ascii c) hi)%bool.

(** [[a-h]] and [[1-8]] *)
Definition is_file (c : ascii) : bool := char_in 97 104 c.
Definition is_rank (c : ascii) : bool := char_in 49 56 c.

(** [" " in message] *)
Fixpoint has_space (s : string) : bool :=
  match s with
  | EmptyString => false
  | String c r => (Ascii.eqb c " " || has_space r)%bool
  end.

(** [msg.split(" ")]: one more piece than there are spaces. *)
Fixpoint split_space (s : string) : list string :=
  match s with
  | EmptyString => [EmptyString]
  | String c r =>
      if Ascii.eqb c " " then EmptyString :: split_space r
      else match split_space r with
           | [] => [String c EmptyString]
           | w :: ws => String c w :: ws
           end
  end.

(** The character class [[a-zA-Z0-9#+!?\-]]. *)
Definition is_move_char (c : ascii) : bool :=
  (char_in 97 122 c || char_in 65 90 c || char_in 48 57 c
   || Ascii.eqb c "#" || Ascii.eqb c "+" || Ascii.eqb c "!"
   || Ascii.eqb c "?" || Ascii.eqb c "-")%bool.

Fixpoint take_move_chars (s : string) : string :=
  match s with
  | EmptyString => EmptyString
  | String c r => if is_move_char c then String c (take_move_chars r) else EmptyString
  end.

(** [re.findall(r"[a-zA-Z0-9#+!?\-]+", message)], first element. *)
Fixpoint first_word (s : string) : option string :=
  match s with
  | EmptyString => None
  | String c r => if is_move_char c then Some (take_move_chars s) else first_word r
  end.

(** ** python-chess values *)

(** [chess.Move]: squares are numbered 0..63, a promotion is a piece
    type; [drop] is [None] in standard chess and is left out. Two moves
    are equal when their fields are. *)
Record Move := { from_square : nat; to_square : nat; promotion : option nat }.

Definition Move_eqb (a b : Move) : bool :=
  (Nat.eqb (from_square a) (from_square b)
   && Nat.eqb (to_square a) (to_square b)
   && match promotion a, promotion b with
      | Some x, Some y => Nat.eqb x y
      | None, None => true
      | _, _ => false
      end)%bool.

(** [chess.Board(fen)] with [board.turn] overwritten. The FEN comes from
    Lichess and is valid, so the constructor returns. *)
Record Board := { board_fen : string; board_turn : bool }.

(** What the keys of a vote dictionary are at run time: a [str], or the
    [chess.Move] object that [board.parse_san] returns. An object of one
    class is never equal to an object of the other. *)
Inductive candidate :=
| CStr (s : string)
| CMove (m : Move).

Definition candidate_eqb (a b : candidate) : bool :=
  match a, b with
  | CStr s, CStr t => String.eqb s t
  | CMove m, CMove n => Move_eqb m n
  | _, _ => false
  end.

#[export] Instance candidate_PyKey : PyKey candidate :=
  {| key_eqb := candidate_eqb |}.

(** ** Lichess data *)

(** An entry of [client.games.get_ongoing()]; [opponent] is
    [game["opponent"]["id"]], [None] against the computer. *)
Record Game := {
  gameId : string;
  fen : string;
  color : string;
  isMyTurn : bool;
  opponent : option string
}.

(** [event["challenge"]] *)
Record Challenge := {
  challenge_id : string;
  rated : bool;
  challenger : string
}.

(** An event of [client.bots.stream_incoming_events()], by its ["type"];
    only a challenge carries [event["challenge"]]. *)
Inductive Event :=
| challenge (c : Challenge)
| gameStart (game : string)
| gameFinish (game : string).

(** A chat line of [bot_irc.recv_messages]. *)
Record Message := { username : string; message : string }.

(** The requests sent to the Lichess client. *)
Inductive api_call :=
| resign_game_call (game_id : string)
| make_move_call (game_id : string) (move : candidate)
| accept_call (id : string)
| decline_call (id : string).

(** ** State of the two objects *)

Record BotChess := {
  mode : string;
  ongoing_games : dict string Game;
  game_move_votes : dict string (dict candidate Z);
  thread_games : list string
}.

Record BotHandler := {
  bot_chess : BotChess;
  game_ids : list string;
  users_already_voted : dict string (list string)
}.

Definition set_ongoing_games (b : BotChess) (g : dict string Game) : BotChess :=
  {| mode := mode b; ongoing_games := g;
     game_move_votes := game_move_votes b; thread_games := thread_games b |}.

Definition set_game_move_votes (b : BotChess) (v : dict string (dict candidate Z)) : BotChess :=
  {| mode := mode b; ongoing_games := ongoing_games b;
     game_move_votes := v; thread_games := thread_games b |}.

Definition set_thread_games (b : BotChess) (t : list string) : BotChess :=
  {| mode := mode b; ongoing_games := ongoing_games b;
     game_move_votes := game_move_votes b; thread_games := t |}.

Definition set_bot_chess (h : BotHandler) (b : BotChess) : BotHandler :=
  {| bot_chess := b; game_ids := game_ids h;
     users_already_voted := users_already_voted h |}.

Definition set_game_ids (h : BotHandler) (ids : list string) : BotHandler :=
  {| bot_chess := bot_chess h; game_ids := ids;
     users_already_voted := users_already_voted h |}.

Definition set_users_already_voted (h : BotHandler) (u : dict string (list string)) : BotHandler :=
  {| bot_chess := bot_chess h; game_ids := game_ids h;
     users_already_voted := u |}.

(** ** [BotChess]: constants *)

Definition RESIGN_MOVE_STR : string := "resign".
Definition MIN_RESIGN_VOTES : Z := 1.
Definition MIN_RESIGN_PERCENTAGE_VOTES : PyFloat.float := PyFloat.lit_0_1.

(** [UCI_PATTERN.match(move)]: [re.match] anchors the pattern
    [[a-h][1-8][a-h][1-8]] at the start of the string only. *)
Definition get_is_uci (move : string) : bool :=
  match move with
  | String c1 (String c2 (String c3 (String c4 _))) =>
      (is_file c1 && is_rank c2 && is_file c3 && is_rank c4)%bool
  | _ => false
  end.

(** ** [BotChess]: the game registry *)

(** [update_ongoing_games]; [fetch] is what [client.games.get_ongoing()]
    gives, [None] when it raises. *)
Definition update_ongoing_games (fetch : option (list Game)) (b : BotChess) : BotChess :=
  match fetch with
  | None => b
  | Some games =>
      set_ongoing_games b
        (fold_left (fun d game => PyDict.set d (gameId game) game) games [])
  end.

Definition get_ongoing_game_ids (b : BotChess) : list string :=
  PyDict.keys (ongoing_games b).

Definition get_board_from_game (game_id : string) (b : BotChess) : option Board :=
  match PyDict.get (ongoing_games b) game_id with
  | Some game =>
      Some {| board_fen := fen game; board_turn := String.eqb (color game) "white" |}
  | None => None
  end.

(** ** [BotChess]: challenges *)

Definition validate_challenge_event (fetch : option (list Game)) (event : Event)
    (b : BotChess) : bool * BotChess :=
  let b := update_ongoing_games fetch b in
  let ret := Nat.eqb (List.length (ongoing_games b)) 0 in
  let ret :=
    match event with
    | challenge c => (ret && negb (rated c))%bool
    | _ => false
    end in
  (ret, b).

Definition treat_incoming_event (fetch : option (list Game)) (event : Event)
    (b : BotChess) : list api_call * BotChess :=
  match event with
  | challenge c =>
      let '(ok, b) := validate_challenge_event fetch event b in
      if ok then ([accept_call (challenge_id c)], b)
      else ([decline_call (challenge_id c)], b)
  | _ => ([], b)
  end.

(** ** [BotChess]: the vote ledger *)

(** [votes[m]] for a key that is present. *)
Definition count_of (votes : dict candidate Z) (m : candidate) : Z :=
  match PyDict.get votes m with Some n => n | None => 0 end.

(** The three statements that end both voting methods: create the game's
    dictionary, create the candidate at 0, add 1. The inner dictionary is
    updated in place, so the game keeps its position in the outer one. *)
Definition add_vote (all : dict string (dict candidate Z)) (game_id : string)
    (key : candidate) : dict string (dict candidate Z) :=
  let all := if PyDict.mem all game_id then all else PyDict.set all game_id [] in
  let votes := match PyDict.get all game_id with Some v => v | None => [] end in
  let votes := if PyDict.mem votes key then votes else PyDict.set votes key 0 in
  let votes := PyDict.set votes key (count_of votes key + 1) in
  PyDict.set all game_id votes.

Definition vote_for_resign (game_id : string) (b : BotChess) : bool * BotChess :=
  (true, set_game_move_votes b (add_vote (game_move_votes b) game_id (CStr RESIGN_MOVE_STR))).

Section Chess.

(** The two entry points of python-chess that the bot calls:
    [chess.SAN_REGEX.match(move) is not None], and [board.parse_san(move)],
    [None] when it raises. *)
Variable SAN_REGEX_match : string -> bool.
Variable parse_san : Board -> string -> option Move.

Definition get_is_move_fmt_valid (move : string) : bool :=
  if negb (get_is_uci move) then
    if negb (SAN_REGEX_match move) then false else true
  else true.

(** The key under which [vote_for_move] counts the vote, [None] where
    it returns [False] from the [except] branch. With no board,
    [board.parse_san] raises [AttributeError], which the same branch
    catches. *)
Definition vote_key (game_id : string) (move : string) (b : BotChess) : option candidate :=
  if negb (get_is_uci move) then
    match get_board_from_game game_id b with
    | None => None
    | Some board =>
        match parse_san board move with
        | Some m => Some (CMove m)
        | None => None
        end
    end
  else Some (CStr move).

Definition vote_for_move (game_id : string) (move : string) (b : BotChess) : bool * BotChess :=
  if negb (get_is_move_fmt_valid move) then (false, b)
  else
    match vote_key game_id move b with
    | None => (false, b)
    | Some key =>
        (true, set_game_move_votes b (add_vote (game_move_votes b) game_id key))
    end.

End Chess.

(** [get_move_from_msg(message, uci)] *)
Fixpoint first_uci (s : string) : option string :=
  match s with
  | EmptyString => None
  | String c r =>
      if get_is_uci s then Some (substring 0 4 s) else first_uci r
  end.

Definition get_move_from_msg (message : string) (uci : bool) : option string :=
  if has_space message then None
  else if uci then first_uci message
  else first_word message.

(** ** [BotChess]: the move arbiter *)

(** [x in moves] *)
Definition In_moves (x : candidate) (moves : list candidate) : bool :=
  existsb (fun m => key_eqb m x) moves.

Definition total_votes (votes : dict candidate Z) (moves : list candidate) : Z :=
  fold_left Z.add (map (count_of votes) moves) 0.

(** Lines 164-179: whether [resign_game] is called. *)
Definition resign_rule (votes : dict candidate Z) (moves : list candidate) : bool :=
  if In_moves (CStr RESIGN_MOVE_STR) moves then
    let total := total_votes votes moves in
    let resign_votes := count_of votes (CStr RESIGN_MOVE_STR) in
    (Z.leb MIN_RESIGN_VOTES total
     && PyFloat.ge (PyFloat.int_truediv resign_votes total)
                   MIN_RESIGN_PERCENTAGE_VOTES)%bool
  else false.

(** Lines 183-191: the move of anarchy mode, [None] where the loop
    [continue]s. *)
Definition anarchy_move (moves : list candidate) : option candidate :=
  match moves with
  | [] => None
  | move :: rest =>
      if key_eqb move (CStr RESIGN_MOVE_STR) then
        match rest with
        | move1 :: _ => Some move1
        | [] => None
        end
      else Some move
  end.

(** [list.remove(x)] *)
Fixpoint list_remove (x : string) (l : list string) : list string :=
  match l with
  | [] => []
  | y :: r => if String.eqb y x then r else y :: list_remove x r
  end.

(** [BotHandler.reset_users_voted_moves] *)
Definition reset_users_voted_moves (game_id : string) (h : BotHandler) : BotHandler :=
  if negb (PyDict.mem (users_already_voted h) game_id) then h
  else set_users_already_voted h (PyDict.set (users_already_voted h) game_id []).

Inductive loop_exit := loop_break | loop_continue | loop_next.

(** One iteration of [while True] in [thread_make_move_handler], after the
    sleep. [make_move_ret] is what [make_move] returns if it is called.
    On [break] the statements after the loop run. *)
Definition thread_make_move_handler_body (make_move_ret : bool) (game_id : string)
    (h : BotHandler) : loop_exit * list api_call * BotHandler :=
  let b := bot_chess h in
  if negb (PyDict.mem (ongoing_games b) game_id) then
    (loop_break, [],
     set_bot_chess h (set_thread_games b (list_remove game_id (thread_games b))))
  else
    match PyDict.get (game_move_votes b) game_id with
    | None => (loop_continue, [], h)
    | Some votes =>
        let moves := PyDict.keys votes in
        if Nat.eqb (List.length moves) 0 then (loop_continue, [], h)
        else
          let resigned :=
            if resign_rule votes moves then [resign_game_call game_id] else [] in
          if String.eqb (mode b) "anarchy" then
            match anarchy_move moves with
            | None => (loop_continue, resigned, h)
            | Some move =>
                let votes :=
                  if make_move_ret then [] else PyDict.del votes move in
                let b :=
                  set_game_move_votes b (PyDict.set (game_move_votes b) game_id votes) in
                (loop_next, resigned ++ [make_move_call game_id move],
                 reset_users_voted_moves game_id (set_bot_chess h b))
            end
          else (loop_next, resigned, reset_users_voted_moves game_id h)
    end.

(** The loop itself, run alone: one answer of the server per iteration. *)
Fixpoint thread_make_move_handler (answers : list bool) (game_id : string)
    (h : BotHandler) : list api_call * BotHandler :=
  match answers with
  | [] => ([], h)
  | ret :: answers =>
      match thread_make_move_handler_body ret game_id h with
      | (loop_break, calls, h) => (calls, h)
      | (_, calls, h) =>
          let '(calls', h) := thread_make_move_handler answers game_id h in
          (calls ++ calls', h)
      end
  end.

(** ** [BotHandler] *)

Definition MSG_COMMANDS : list string := ["!resign"; "!challenge"].

(** [x in users] on a list of names *)
Definition In_users (x : string) (users : list string) : bool :=
  existsb (fun u => String.eqb u x) users.

Definition get_game_ids (h : BotHandler) : list string := game_ids h.

(** One iteration of [thread_update_game_ids]. *)
Definition thread_update_game_ids_body (h : BotHandler) : BotHandler :=
  set_game_ids h (get_ongoing_game_ids (bot_chess h)).

Definition set_user_as_already_voted (game_id user : string) (h : BotHandler) : BotHandler :=
  let all := users_already_voted h in
  let all := if PyDict.mem all game_id then all else PyDict.set all game_id [] in
  let users := match PyDict.get all game_id with Some u => u | None => [] end in
  let users := if In_users user users then users else users ++ [user] in
  set_users_already_voted h (PyDict.set all game_id users).

Definition get_has_user_already_voted (game_id user : string) (h : BotHandler) : bool :=
  match PyDict.get (users_already_voted h) game_id with
  | None => false
  | Some users => In_users user users
  end.

(** The [for] loop of [get_command_from_msg]; falling off its end
    returns [None]. *)
Fixpoint match_command (commands parse_msg : list string)
    : option (dict string (option string)) :=
  match commands with
  | [] => None
  | command :: commands =>
      if String.eqb (hd EmptyString parse_msg) command
      then Some [(command, nth_error parse_msg 1)]
      else match_command commands parse_msg
  end.

(** [msg[0]] comes first and raises [IndexError] on the empty string. *)
Definition get_command_from_msg (msg : string)
    : result (option (dict string (option string))) :=
  match msg with
  | EmptyString => Raised IndexError
  | String c _ =>
      if negb (Ascii.eqb c "!") then Value None
      else
        let parse_msg := split_space msg in
        if Nat.eqb (List.length parse_msg) 0 then Value None
        else Value (match_command MSG_COMMANDS parse_msg)
  end.

Definition treat_command (command : dict string (option string)) (msg_dict : Message)
    (h : BotHandler) : BotHandler :=
  if PyDict.mem command "!resign" then
    match get_game_ids h with
    | [] => h
    | game_id :: _ =>
        let '(ret, b) := vote_for_resign game_id (bot_chess h) in
        let h := set_bot_chess h b in
        let h := if ret then set_user_as_already_voted game_id (username msg_dict) h
                 else h in
        if PyDict.mem command "!challenge" then h else h
    end
  else if PyDict.mem command "!challenge" then h else h.

Section Chat.

Variable SAN_REGEX_match : string -> bool.
Variable parse_san : Board -> string -> option Move.

Definition treat_move_msg (move : string) (msg_dict : Message) (h : BotHandler) : BotHandler :=
  match get_game_ids h with
  | [] => h
  | game_id :: _ =>
      if get_has_user_already_voted game_id (username msg_dict) h then h
      else
        let '(ret, b) :=
          vote_for_move SAN_REGEX_match parse_san game_id move (bot_chess h) in
        let h := set_bot_chess h b in
        if ret then set_user_as_already_voted game_id (username msg_dict) h else h
  end.

(** The body of [for message in new_messages] in [thread_twitch_chat]. *)
Definition thread_twitch_chat_message (msg : Message) (h : BotHandler) : result BotHandler :=
  command <- get_command_from_msg (message msg) ;;
  match command with
  | Some command => Value (treat_command command msg h)
  | None =>
      match get_move_from_msg (message msg) false with
      | Some move => Value (treat_move_msg move msg h)
      | None => Value h
      end
  end.

(** One iteration of [while True] in [thread_twitch_chat]; nothing in it
    catches an exception, so the first one ends the thread. *)
Fixpoint thread_twitch_chat_messages (new_messages : list Message) (h : BotHandler)
    : result BotHandler :=
  match new_messages with
  | [] => Value h
  | msg :: rest =>
      h <- thread_twitch_chat_message msg h ;;
      thread_twitch_chat_messages rest h
  end.

Definition thread_twitch_chat_body (new_messages : option (list Message))
    (h : BotHandler) : result BotHandler :=
  match new_messages with
  | None => Value h
  | Some new_messages => thread_twitch_chat_messages new_messages h
  end.

End Chat.

(** ** [BotChess]: the other readers of the registry *)

(** [is_my_turn] falls off its end for a game that is not ongoing and
    so returns [None]. *)
Definition is_my_turn (game_id : string) (b : BotChess) : option bool :=
  match PyDict.get (ongoing_games b) game_id with
  | Some game => Some (isMyTurn game)
  | None => None
  end.

Definition get_color_in_ongoing_game (game_id : string) (b : BotChess) : option string :=
  match PyDict.get (ongoing_games b) game_id with
  | Some game => Some (color game)
  | None => None
  end.

(** [get_ongoing_games]: a deep copy, the same value. *)
Definition get_ongoing_games (b : BotChess) : dict string Game := ongoing_games b.

(** ** [BotChess]: the games handler *)

Section GamesHandler.

(** [client.users.get_by_id(player_id)[0]["online"]] as asked for the
    opponent of a game; [None] when the call or the indexing raises. *)
Variable get_by_id : string -> string -> option bool.

(** Lines 116-136: the [resign_game] call for one game, if any. *)
Definition offline_resign (game_id : string) (b : BotChess) : list api_call :=
  match PyDict.get (ongoing_games b) game_id with
  | None => []
  | Some game =>
      match opponent game with
      | None => []
      | Some player_id =>
          match get_by_id game_id player_id with
          | Some false => [resign_game_call game_id]
          | _ => []
          end
      end
  end.

(** The [for game_id in self.ongoing_games.keys()] loop: the ids whose
    arbiter thread is started, the calls sent, the new state. *)
Fixpoint games_handler_for (ids : list string) (b : BotChess)
    : list string * list api_call * BotChess :=
  match ids with
  | [] => ([], [], b)
  | game_id :: ids =>
      let '(started, b) :=
        if negb (In_users game_id (thread_games b))
        then ([game_id], set_thread_games b (thread_games b ++ [game_id]))
        else ([], b) in
      let calls := offline_resign game_id b in
      let '(started', calls', b) := games_handler_for ids b in
      (started ++ started', calls ++ calls', b)
  end.

(** One iteration of [while True] in [thread_games_handler]. *)
Definition thread_games_handler_body (b : BotChess)
    : list string * list api_call * BotChess :=
  games_handler_for (PyDict.keys (ongoing_games b)) b.

End GamesHandler.

(** ** The two constructors *)

(** The state after [BotChess.__init__] (once [start_session] has
    succeeded) and [BotHandler.__init__]. *)
Definition BotChess_init (mode : string) : BotChess :=
  {| mode := mode; ongoing_games := []; game_move_votes := [];
     thread_games := [] |}.

Definition BotHandler_init : BotHandler :=
  {| bot_chess := BotChess_init "anarchy"; game_ids := [];
     users_already_voted := [] |}.

(** ** [BotHandler]: the overlay *)

(** [s.split(sep)] for a separator of one character. *)
Fixpoint split_on (sep : ascii) (s : string) : list string :=
  match s with
  | EmptyString => [EmptyString]
  | String c r =>
      if Ascii.eqb c sep then EmptyString :: split_on sep r
      else match split_on sep r with
           | [] => [String c EmptyString]
           | w :: ws => String c w :: ws
           end
  end.

(** [url.split("/")[-1]] *)
Definition get_game_id_from_url (url : string) : string :=
  last (split_on "/" url) EmptyString.

(** The address that [update_obs_json_url] writes:
    [f"http://www.lichess.org/{game_id}"]. *)
Definition obs_url (game_id : string) : string :=
  "http://www.lichess.org/" ++ game_id.

(** The object kept in [./obs/info.json]. *)
Record obs_info := { wins : Z; draws : Z; losses : Z; url : string }.

(** The two local variables of [thread_obs_update]; [last_json] is [None]
    when [get_obs_info_json] gave up. *)
Record obs_loop := { last_json : option obs_info; has_updated_wdl : bool }.

(** What an iteration asks of the account and of the file. *)
Inductive obs_call :=
| get_account_info_call
| update_obs_json_WDL_call (wins draws losses : Z)
| update_obs_json_url_call (game_id : string)
| get_obs_info_json_call.

(** An iteration ends normally, or with an exception that nothing
    catches. *)
Inductive obs_outcome :=
| obs_next (calls : list obs_call) (s : obs_loop)
| obs_raised (calls : list obs_call).

(** One iteration of [while True] in [thread_obs_update]. [acc_info] is
    the win, draw and loss counts of [get_account_info()], [None] when it
    failed; [reread] is what [get_obs_info_json()] gives at line 122. The
    two [update_obs_json_*] methods catch their own exceptions.
    [last_json["url"]] raises when [last_json] is [None]. *)
Definition thread_obs_update_body (acc_info : option (Z * Z * Z))
    (reread : result (option obs_info)) (games_ids : list string)
    (s : obs_loop) : obs_outcome :=
  let '(calls, updated) :=
    if (negb (has_updated_wdl s) && Nat.eqb (List.length games_ids) 0)%bool then
      match acc_info with
      | Some (w, d, l) =>
          ([get_account_info_call; update_obs_json_WDL_call w d l], true)
      | None => ([get_account_info_call], has_updated_wdl s)
      end
    else ([], has_updated_wdl s) in
  if Nat.ltb 0 (List.length games_ids) then
    let game_id := hd EmptyString games_ids in
    match last_json s with
    | None => obs_raised calls
    | Some j =>
        if negb (String.eqb game_id (get_game_id_from_url (url j))) then
          let calls := calls ++ [update_obs_json_url_call game_id; get_obs_info_json_call] in
          match reread with
          | Value j' => obs_next calls {| last_json := j'; has_updated_wdl := updated |}
          | Raised _ => obs_raised calls
          end
        else obs_next calls {| last_json := last_json s; has_updated_wdl := updated |}
    end
  else obs_next calls {| last_json := last_json s; has_updated_wdl := updated |}.

(** The loop, on the inputs of its successive iterations: all the calls
    made until the inputs run out or an exception ends the thread. *)
Fixpoint thread_obs_update
    (inputs : list (option (Z * Z * Z) * result (option obs_info) * list string))
    (s : obs_loop) : list obs_call :=
  match inputs with
  | [] => []
  | (acc_info, reread, games_ids) :: inputs =>
      match thread_obs_update_body acc_info reread games_ids s with
      | obs_next calls s => calls ++ thread_obs_update inputs s
      | obs_raised calls => calls
      end
  end.


(** * Vocabulary of the statements *)

(** The dictionary that the loop of [update_ongoing_games] builds from
    [d]. *)
Definition registry_of (games : list Game) (d : dict string Game) : dict string Game :=
  fold_left (fun d game => PyDict.set d (gameId game) game) games d.

(** The round of a game, empty when the game has none yet. *)
Definition round_of (all : dict string (dict candidate Z)) (game_id : string)
    : dict candidate Z :=
  match PyDict.get all game_id with Some v => v | None => [] end.

(** A vote round as the voting methods leave it: no candidate twice,
    every count positive. *)
Definition round_wf (votes : dict candidate Z) : Prop :=
  PyDict.wf votes /\ Forall (fun kv => 0 < snd kv) votes.

Definition ledger_wf (b : BotChess) : Prop :=
  forall game_id votes,
    PyDict.get (game_move_votes b) game_id = Some votes -> round_wf votes.

(** The first candidate, in the order of the dictionary, that is not the
    resignation token. *)
Definition first_non_resign (moves : list candidate) : option candidate :=
  find (fun m => negb (key_eqb m (CStr RESIGN_MOVE_STR))) moves.

(** The [resign_game] call of a cycle, if the rule fires. *)
Definition resigned_calls (game_id : string) (votes : dict candidate Z) : list api_call :=
  if resign_rule votes (PyDict.keys votes) then [resign_game_call game_id] else [].

(** The total of a round and its resignation votes, 0 when there are none. *)
Definition round_total (votes : dict candidate Z) : Z :=
  total_votes votes (PyDict.keys votes).

Definition resign_votes_of (votes : dict candidate Z) : Z :=
  count_of votes (CStr RESIGN_MOVE_STR).

(** The cycle calls [resign_game]. *)
Definition resigns (ret : bool) (game_id : string) (h : BotHandler) : Prop :=
  In (resign_game_call game_id)
     (snd (fst (thread_make_move_handler_body ret game_id h))).

(** * Examples: one game from the start position *)

Definition start_fen : string :=
  "rnbqkbnr/pppppppp/8/8/8/8/PPPPPPPP/RNBQKBNR w KQkq - 0 1".

Definition example_game (id : string) : Game :=
  {| gameId := id; fen := start_fen; color := "white"; isMyTurn := true;
     opponent := Some "opponent" |}.

(** A bot in anarchy mode that plays the game ["g1"]. *)
Definition example_bot (ledger : dict string (dict candidate Z))
    (voted : dict string (list string)) : BotHandler :=
  {| bot_chess :=
       {| mode := "anarchy";
          ongoing_games := [("g1", example_game "g1")];
          game_move_votes := ledger;
          thread_games := ["g1"] |};
     game_ids := ["g1"];
     users_already_voted := voted |}.

(** [chess.Move.uci()] *)
Definition square_name (sq : nat) : string :=
  String (ascii_of_nat (97 + Nat.modulo sq 8))
    (String (ascii_of_nat (49 + Nat.div sq 8)) EmptyString).

Definition piece_symbol (piece_type : nat) : string :=
  match piece_type with
  | 1%nat => "p" | 2%nat => "n" | 3%nat => "b"
  | 4%nat => "r" | 5%nat => "q" | 6%nat => "k"
  | _ => ""
  end.

Definition Move_uci (m : Move) : string :=
  square_name (from_square m) ++ square_name (to_square m)
  ++ match promotion m with Some p => piece_symbol p | None => "" end.

Definition e2e4 : Move := {| from_square := 12; to_square := 28; promotion := None |}.
Definition g1f3 : Move := {| from_square := 6; to_square := 21; promotion := None |}.

(** python-chess on the two abbreviated moves that the examples use:
    ["e4"] and ["Nf3"] match [chess.SAN_REGEX], and on the start position
    [parse_san] resolves them to e2e4 and g1f3. *)
Definition start_SAN_REGEX_match (s : string) : bool :=
  (String.eqb s "e4" || String.eqb s "Nf3")%bool.

Definition start_parse_san (board : Board) (s : string) : option Move :=
  if String.eqb (board_fen board) start_fen then
    if String.eqb s "e4" then Some e2e4
    else if String.eqb s "Nf3" then Some g1f3
    else None
  else None.

Definition chat (user text : string) : Message :=
  {| username := user; message := text |}.

Definition example_round : dict candidate Z :=
  [(CStr "resign", 1); (CStr "e2e4", 10); (CStr "d2d4", 1)].

Definition example_h : BotHandler :=
  example_bot [("g1", example_round)] [("g1", ["alice"; "bob"])].

Definition resigning_round : dict candidate Z :=
  [(CStr "resign", 1); (CStr "e2e4", 9)].

Definition resigning_h : BotHandler :=
  example_bot [("g1", resigning_round)] [("g1", ["alice"; "bob"])].

(** * Vocabulary of the further statements *)

(** A call of one of the two voting methods. *)
Inductive vote_request :=
| resign_request
| move_request (move : string).

Section CastVotes.
Variable SAN_REGEX_match : string -> bool.
Variable parse_san : Board -> string -> option Move.

Definition cast_vote (game_id : string) (r : vote_request) (b : BotChess)
    : bool * BotChess :=
  match r with
  | resign_request => vote_for_resign game_id b
  | move_request move => vote_for_move SAN_REGEX_match parse_san game_id move b
  end.

(** The calls of a list, one after the other. *)
Fixpoint cast_votes (game_id : string) (rs : list vote_request) (b : BotChess)
    : BotChess :=
  match rs with
  | [] => b
  | r :: rs => cast_votes game_id rs (snd (cast_vote game_id r b))
  end.

(** Whether a call returns [True]. *)
Definition accepted (game_id : string) (b : BotChess) (r : vote_request) : bool :=
  fst (cast_vote game_id r b).

(** Whether a call returns [True] and counts its vote for [c]. *)
Definition counts_for (c : candidate) (game_id : string) (b : BotChess)
    (r : vote_request) : bool :=
  match r with
  | resign_request => key_eqb (CStr RESIGN_MOVE_STR) c
  | move_request move =>
      if get_is_move_fmt_valid SAN_REGEX_match move then
        match vote_key parse_san game_id move b with
        | Some key => key_eqb key c
        | None => false
        end
      else false
  end.

End CastVotes.

(** The sum of the counts of a round. *)
Definition sum_counts (votes : dict candidate Z) : Z :=
  fold_left Z.add (map snd votes) 0.

(** What the threads of the bot do, one step at a time: a chat line, a
    copy of the game ids, a refresh of the registry, an incoming event, an
    iteration of the arbiter of a game, an iteration of the games
    handler. *)
Inductive bot_event :=
| chat_event (msg : Message)
| update_game_ids_event
| update_ongoing_games_event (fetch : option (list Game))
| incoming_event (fetch : option (list Game)) (event : Event)
| make_move_event (game_id : string) (make_move_ret : bool)
| games_handler_event (get_by_id : string -> string -> option bool).

Section Run.
Variable SAN_REGEX_match : string -> bool.
Variable parse_san : Board -> string -> option Move.

(** The state after a step that runs alone. A chat line that raises
    leaves the state as it was: the exception comes before any write. So
    does the exit of an arbiter whose game is not in [thread_games], where
    [list.remove] raises. *)
Definition run_event (e : bot_event) (h : BotHandler) : BotHandler :=
  match e with
  | chat_event msg =>
      match thread_twitch_chat_message SAN_REGEX_match parse_san msg h with
      | Value h => h
      | Raised _ => h
      end
  | update_game_ids_event => thread_update_game_ids_body h
  | update_ongoing_games_event fetch =>
      set_bot_chess h (update_ongoing_games fetch (bot_chess h))
  | incoming_event fetch event =>
      set_bot_chess h (snd (treat_incoming_event fetch event (bot_chess h)))
  | make_move_event game_id ret =>
      snd (thread_make_move_handler_body ret game_id h)
  | games_handler_event get_by_id =>
      set_bot_chess h (snd (thread_games_handler_body get_by_id (bot_chess h)))
  end.

Definition run_events (es : list bot_event) (h : BotHandler) : BotHandler :=
  fold_left (fun h e => run_event e h) es h.

End Run.

(** The voted lists of a handler: one entry per game, no user twice. *)
Definition users_wf (u : dict string (list string)) : Prop :=
  PyDict.wf u /\ forall g users, PyDict.get u g = Some users -> NoDup users.

(** What every state of the bot satisfies. *)
Definition bot_inv (h : BotHandler) : Prop :=
  ledger_wf (bot_chess h)
  /\ PyDict.wf (game_move_votes (bot_chess h))
  /\ PyDict.wf (ongoing_games (bot_chess h))
  /\ users_wf (users_already_voted h)
  /\ NoDup (thread_games (bot_chess h)).

(** The moves that a list of calls submits, in order. *)
Definition submitted_moves (calls : list api_call) : list candidate :=
  flat_map (fun c => match c with make_move_call _ m => [m] | _ => [] end) calls.

(** The candidates of a round other than the resignation token. *)
Definition non_resign (moves : list candidate) : list candidate :=
  filter (fun m => negb (key_eqb m (CStr RESIGN_MOVE_STR))) moves.

(** A call that concerns the game [game_id]. *)
Definition call_of_game (game_id : string) (c : api_call) : Prop :=
  c = resign_game_call game_id \/ exists m, c = make_move_call game_id m.


(** [c in s] for a character. *)
Fixpoint contains (c : ascii) (s : string) : bool :=
  match s with
  | EmptyString => false
  | String c' r => (Ascii.eqb c' c || contains c r)%bool
  end.

(** Every character of [s] satisfies [p]. *)
Fixpoint all_chars (p : ascii -> bool) (s : string) : bool :=
  match s with
  | EmptyString => true
  | String c r => (p c && all_chars p r)%bool
  end.

(** The calls of an iteration of the overlay thread. *)
Definition obs_calls (o : obs_outcome) : list obs_call :=
  match o with
  | obs_next calls _ => calls
  | obs_raised calls => calls
  end.

Definition is_WDL_call (c : obs_call) : bool :=
  match c with
  | update_obs_json_WDL_call _ _ _ => true
  | _ => false
  end.

(** How many times a run writes the win, draw and loss counts. *)
Definition WDL_writes (calls : list obs_call) : nat :=
  List.length (filter is_WDL_call calls).

(** ** Further examples *)

(** The bot of the examples before any vote. *)
Definition idle_h : BotHandler := example_bot [] [].

(** A round that holds votes to resign only. *)
Definition resign_only_round : dict candidate Z := [(CStr "resign", 2)].

Definition resign_only_h : BotHandler :=
  example_bot [("g1", resign_only_round)] [("g1", ["alice"])].

(** The bot of the examples once the registry has been refreshed after
    the end of its game. *)
Definition finished_h : BotHandler :=
  set_bot_chess example_h (update_ongoing_games (Some []) (bot_chess example_h)).

(** The same bot in a mode that is not anarchy. *)
Definition democracy_h : BotHandler :=
  {| bot_chess :=
       {| mode := "democracy";
          ongoing_games := [("g1", example_game "g1")];
          game_move_votes := [("g1", example_round)];
          thread_games := ["g1"] |};
     game_ids := ["g1"];
     users_already_voted := [] |}.

Definition two_games : list Game := [example_game "g1"; example_game "g2"].

(** A bot with two ongoing games and an arbiter for the first one. *)
Definition two_games_bot : BotChess :=
  update_ongoing_games (Some two_games)
    (set_thread_games (BotChess_init "anarchy") ["g1"]).

(** The overlay file showing the game ["g1"]. *)
Definition example_obs_info : obs_info :=
  {| wins := 3; draws := 1; losses := 2; url := obs_url "g1" |}.

Definition example_obs_loop : obs_loop :=
  {| last_json := Some example_obs_info; has_updated_wdl := false |}.

(** * Facts about dictionaries *)

#[export] Instance string_PyKeyLaws : PyKeyLaws string.
Proof. constructor. intros a b. apply String.eqb_eq. Qed.

Lemma Move_eqb_eq (a b : Move) : Move_eqb a b = true <-> a = b.
Proof.
  destruct a as [f1 t1 p1], b as [f2 t2 p2]; unfold Move_eqb; cbn.
  rewrite !andb_true_iff, !Nat.eqb_eq. split.
  - intros [[-> ->] Hp]. destruct p1, p2; try discriminate; auto.
    apply Nat.eqb_eq in Hp. now subst.
  - intros E; injection E as -> -> ->. repeat split.
    destruct p2; auto. apply Nat.eqb_refl.
Qed.

Lemma candidate_eqb_eq (a b : candidate) : candidate_eqb a b = true <-> a = b.
Proof.
  destruct a, b; cbn; try (split; discriminate).
  - rewrite String.eqb_eq. split; [now intros -> | now intros [= ->]].
  - rewrite Move_eqb_eq. split; [now intros -> | now intros [= ->]].
Qed.

#[export] Instance candidate_PyKeyLaws : PyKeyLaws candidate.
Proof. constructor. exact candidate_eqb_eq. Qed.

Section DictFacts.
Context {K V : Type} `{PyKeyLaws K}.
Implicit Types (d : dict K V) (k : K) (v : V).

Lemma key_eqb_refl k : key_eqb k k = true.
Proof. now apply key_eqb_spec. Qed.

Lemma key_eqb_neq k k' : k <> k' -> key_eqb k k' = false.
Proof.
  intros N. destruct (key_eqb k k') eqn:E; auto.
  apply key_eqb_spec in E. contradiction.
Qed.

Lemma key_eqb_false k k' : key_eqb k k' = false -> k <> k'.
Proof. intros E ->. rewrite key_eqb_refl in E. discriminate. Qed.

Lemma get_None_keys d k : PyDict.get d k = None <-> ~ In k (PyDict.keys d).
Proof.
  induction d as [|[k' v'] r IH]; cbn.
  - tauto.
  - destruct (key_eqb k' k) eqn:E.
    + apply key_eqb_spec in E. subst. split; [discriminate | tauto].
    + apply key_eqb_false in E. rewrite IH. tauto.
Qed.

Lemma mem_keys d k : PyDict.mem d k = true <-> In k (PyDict.keys d).
Proof.
  unfold PyDict.mem. destruct (PyDict.get d k) eqn:E.
  - split; auto. intros _.
    destruct (in_dec (fun a b => match key_eqb a b as x return (key_eqb a b = x -> {a = b} + {a <> b}) with
                                 | true => fun e => left (proj1 (key_eqb_spec a b) e)
                                 | false => fun e => right (key_eqb_false a b e)
                                 end eq_refl) k (PyDict.keys d)) as [I|N]; auto.
    apply get_None_keys in N. congruence.
  - apply get_None_keys in E. split; [discriminate | contradiction].
Qed.

Lemma mem_false_keys d k : PyDict.mem d k = false <-> ~ In k (PyDict.keys d).
Proof.
  rewrite <- mem_keys. destruct (PyDict.mem d k); split; congruence.
Qed.

Lemma get_set_eq d k v : PyDict.get (PyDict.set d k v) k = Some v.
Proof.
  induction d as [|[k' v'] r IH]; cbn.
  - now rewrite key_eqb_refl.
  - destruct (key_eqb k' k) eqn:E; cbn; rewrite E; auto.
Qed.

Lemma get_set_ne d k k' v :
  k <> k' -> PyDict.get (PyDict.set d k v) k' = PyDict.get d k'.
Proof.
  intros N. induction d as [|[k0 v0] r IH]; cbn.
  - now rewrite key_eqb_neq.
  - destruct (key_eqb k0 k) eqn:E; cbn.
    + apply key_eqb_spec in E. subst k0. now rewrite key_eqb_neq.
    + destruct (key_eqb k0 k'); auto.
Qed.

Lemma keys_set_old d k v :
  PyDict.mem d k = true -> PyDict.keys (PyDict.set d k v) = PyDict.keys d.
Proof.
  unfold PyDict.mem. induction d as [|[k0 v0] r IH]; cbn.
  - discriminate.
  - destruct (key_eqb k0 k) eqn:E; cbn; auto.
    intros M. f_equal. now apply IH.
Qed.

Lemma keys_set_new d k v :
  PyDict.mem d k = false -> PyDict.keys (PyDict.set d k v) = PyDict.keys d ++ [k].
Proof.
  unfold PyDict.mem. induction d as [|[k0 v0] r IH]; cbn; auto.
  destruct (key_eqb k0 k) eqn:E; cbn.
  - discriminate.
  - intros M. f_equal. now apply IH.
Qed.

Lemma In_keys_set d k v k' :
  In k' (PyDict.keys (PyDict.set d k v)) <-> k' = k \/ In k' (PyDict.keys d).
Proof.
  destruct (PyDict.mem d k) eqn:M.
  - rewrite keys_set_old by assumption. apply mem_keys in M.
    split; auto. intros [->|I]; auto.
  - rewrite keys_set_new by assumption. rewrite in_app_iff. cbn.
    split; [intros [I|[E|[]]] | intros [E|I]]; auto.
Qed.

Lemma wf_set d k v : PyDict.wf d -> PyDict.wf (PyDict.set d k v).
Proof.
  unfold PyDict.wf. intros W. destruct (PyDict.mem d k) eqn:M.
  - now rewrite keys_set_old.
  - rewrite keys_set_new by assumption. apply mem_false_keys in M.
    apply NoDup_app; auto.
    + constructor; [intros [] | constructor].
    + intros x I [E|[]]. subst. contradiction.
Qed.

Lemma In_keys_del d k k' :
  In k' (PyDict.keys (PyDict.del d k)) -> In k' (PyDict.keys d).
Proof.
  induction d as [|[k0 v0] r IH]; cbn; auto.
  destruct (key_eqb k0 k); cbn; tauto.
Qed.

Lemma wf_del d k : PyDict.wf d -> PyDict.wf (PyDict.del d k).
Proof.
  unfold PyDict.wf. induction d as [|[k0 v0] r IH]; cbn; auto.
  intros W. inversion W as [|? ? N W']; subst.
  destruct (key_eqb k0 k); cbn; auto.
  constructor; auto. intros I. apply N. now apply In_keys_del in I.
Qed.

Lemma get_del_eq d k : PyDict.wf d -> PyDict.get (PyDict.del d k) k = None.
Proof.
  unfold PyDict.wf. induction d as [|[k0 v0] r IH]; cbn; auto.
  intros W. inversion W as [|? ? N W']; subst.
  destruct (key_eqb k0 k) eqn:E; cbn.
  - apply key_eqb_spec in E. subst. now apply get_None_keys.
  - rewrite E. auto.
Qed.

Lemma get_del_ne d k k' :
  k <> k' -> PyDict.get (PyDict.del d k) k' = PyDict.get d k'.
Proof.
  intros N. induction d as [|[k0 v0] r IH]; cbn; auto.
  destruct (key_eqb k0 k) eqn:E; cbn.
  - apply key_eqb_spec in E. subst. now rewrite key_eqb_neq.
  - destruct (key_eqb k0 k'); auto.
Qed.

End DictFacts.

(** * Facts about the binary64 quotient *)

Module PyFloatFacts.
Import PyFloat.
Local Open Scope Z_scope.

Lemma digits2_pos_bounds (p : positive) :
  2 ^ (Zpos (digits2_pos p) - 1) <= Zpos p < 2 ^ Zpos (digits2_pos p).
Proof.
  induction p as [p IH|p IH|]; cbn [digits2_pos].
  - rewrite Pos2Z.inj_succ.
    replace (Z.succ (Zpos (digits2_pos p)) - 1) with (Z.succ (Zpos (digits2_pos p) - 1)) by lia.
    rewrite !Z.pow_succ_r by lia. lia.
  - rewrite Pos2Z.inj_succ.
    replace (Z.succ (Zpos (digits2_pos p)) - 1) with (Z.succ (Zpos (digits2_pos p) - 1)) by lia.
    rewrite !Z.pow_succ_r by lia. lia.
  - cbn. lia.
Qed.

Lemma Zdigits2_unique (n k : Z) :
  2 ^ (k - 1) <= n < 2 ^ k -> 0 < k -> Zdigits2 n = k.
Proof.
  intros [L U] Hk.
  assert (0 < n) by (pose proof (Z.pow_pos_nonneg 2 (k - 1)); lia).
  destruct n as [|p|p]; try lia. cbn.
  pose proof (digits2_pos_bounds p) as [L' U'].
  set (d := Zpos (digits2_pos p)) in *.
  destruct (Z.lt_trichotomy d k) as [C|[C|C]]; auto.
  - assert (2 ^ d <= 2 ^ (k - 1)) by (apply Z.pow_le_mono_r; lia). lia.
  - assert (2 ^ k <= 2 ^ (d - 1)) by (apply Z.pow_le_mono_r; lia). lia.
Qed.

Lemma shr_1_spec (m : Z) (r s : bool) :
  0 <= m ->
  shr_1 {| shr_m := m; shr_r := r; shr_s := s |}
  = {| shr_m := m / 2; shr_r := Z.odd m; shr_s := (r || s)%bool |}.
Proof.
  intros P. destruct m as [|p|p]; try lia; cbn [shr_1].
  - reflexivity.
  - destruct p as [p|p|].
    + replace (Z.pos p~1 / 2) with (Z.pos p); [reflexivity|].
      apply (Z.div_unique _ 2 _ 1); lia.
    + replace (Z.pos p~0 / 2) with (Z.pos p); [reflexivity|].
      apply (Z.div_unique _ 2 _ 0); lia.
    + reflexivity.
Qed.

Lemma fexp_eq e : fexp prec emax e = Z.max (e - 53) (-1074).
Proof. reflexivity. Qed.

Lemma loc_of_shr_record_of_loc m l :
  loc_of_shr_record (shr_record_of_loc m l) = l.
Proof. destruct l as [|[]]; reflexivity. Qed.

Lemma shr_m_of_loc m l : shr_m (shr_record_of_loc m l) = m.
Proof. destruct l as [|[]]; reflexivity. Qed.

Lemma round_nearest_even_bounds m l :
  m <= round_nearest_even m l <= m + 1.
Proof.
  destruct l as [|[]]; cbn; try lia. destruct (Z.even m); lia.
Qed.

Lemma Zdigits2_le_53 m : 0 < m < 2 ^ 53 -> 0 < Zdigits2 m <= 53.
Proof.
  intros [P U]. destruct m as [|p|p]; try lia. cbn [Zdigits2].
  pose proof (digits2_pos_bounds p) as [L _].
  split; [lia|].
  destruct (Z_le_gt_dec (Zpos (digits2_pos p)) 53) as [C|C]; auto.
  assert (2 ^ 53 <= 2 ^ (Zpos (digits2_pos p) - 1)) by (apply Z.pow_le_mono_r; lia).
  lia.
Qed.

(** The second half of [binary_round_aux]: renormalising the rounded
    mantissa. *)
Lemma renormalise m1 e :
  0 <= m1 <= 2 ^ 53 -> -1074 <= e <= 970 ->
  (let '(mrs, e') := shr_fexp prec emax m1 e loc_Exact in
   match shr_m mrs with
   | Z0 => S754_zero false
   | Zpos m => if e' <=? emax - prec then S754_finite false m e' else S754_infinity false
   | Zneg _ => S754_nan
   end)
  = rounded m1 e.
Proof.
  intros B E. unfold rounded, shr_fexp.
  destruct (Z.eqb_spec m1 0) as [Z0|NZ].
  - rewrite Z0. cbn [Zdigits2]. rewrite fexp_eq.
    destruct (Z.max (0 + e - 53) (-1074) - e) eqn:N; try lia; reflexivity.
  - destruct (Z.ltb_spec m1 (2 ^ 53)) as [L|G].
    + assert (D : 0 < Zdigits2 m1 <= 53) by (apply Zdigits2_le_53; lia).
      rewrite fexp_eq.
      assert (T : (e <=? emax - prec) = true)
        by (apply Z.leb_le; unfold emax, prec; lia).
      destruct (Z.max (Zdigits2 m1 + e - 53) (-1074) - e) eqn:N; try lia;
        cbn [shr shr_record_of_loc shr_m]; destruct m1; try lia;
        cbn [Z.to_pos]; now rewrite T.
    + assert (M1 : m1 = 2 ^ 53) by lia. rewrite M1.
      replace (fexp prec emax (Zdigits2 (2 ^ 53) + e) - e) with 1
        by (rewrite fexp_eq; change (Zdigits2 (2 ^ 53)) with 54; lia).
      cbn [shr shr_record_of_loc iter_pos].
      change (shr_m (shr_1 {| shr_m := 2 ^ 53; shr_r := false; shr_s := false |}))
        with (2 ^ 52).
      change (2 ^ 52) with (Zpos (Z.to_pos (2 ^ 52))) at 1. cbv iota beta.
      replace (e + 1 <=? emax - prec) with true; auto.
      symmetry. apply Z.leb_le. unfold emax, prec. lia.
Qed.

Lemma binary_round_aux_noshift q e loc :
  0 <= q < 2 ^ 53 ->
  fexp prec emax (Zdigits2 q + e) = e ->
  e <= 970 ->
  binary_round_aux prec emax false q e loc
  = rounded (round_nearest_even q loc) e.
Proof.
  intros Q F E.
  assert (E0 : -1074 <= e) by (rewrite fexp_eq in F; lia).
  unfold binary_round_aux, shr_fexp at 1. rewrite F, Z.sub_diag. cbn [shr].
  rewrite shr_m_of_loc, loc_of_shr_record_of_loc.
  pose proof (round_nearest_even_bounds q loc) as B.
  apply renormalise; lia.
Qed.

Lemma binary_round_aux_shift q e loc :
  2 ^ 53 <= q < 2 ^ 54 ->
  -1075 <= e <= 969 ->
  binary_round_aux prec emax false q e loc
  = rounded (round_nearest_even (q / 2) (shifted_loc q loc)) (e + 1).
Proof.
  intros Q E.
  assert (D : Zdigits2 q = 54) by (apply Zdigits2_unique; [exact Q | lia]).
  unfold binary_round_aux, shr_fexp at 1. rewrite D.
  replace (fexp prec emax (54 + e) - e) with 1 by (rewrite fexp_eq; lia).
  cbn [shr iter_pos].
  assert (S : shr_1 (shr_record_of_loc q loc)
              = {| shr_m := q / 2; shr_r := Z.odd q;
                   shr_s := match loc with loc_Exact => false | _ => true end |}).
  { destruct loc as [|[]]; cbn [shr_record_of_loc]; rewrite shr_1_spec by lia;
      reflexivity. }
  rewrite S. cbn [shr_m].
  replace (loc_of_shr_record _) with (shifted_loc q loc)
    by (unfold shifted_loc; destruct (Z.odd q), loc as [|[]]; reflexivity).
  assert (H : 2 ^ 52 <= q / 2 < 2 ^ 53).
  { split; [apply Z.div_le_lower_bound | apply Z.div_lt_upper_bound]; lia. }
  pose proof (round_nearest_even_bounds (q / 2) (shifted_loc q loc)) as B.
  apply renormalise; lia.
Qed.

Lemma leb_lit_finite m e :
  SFleb lit_0_1 (S754_finite false m e) = true
  <-> -56 < e \/ (e = -56 /\ 7205759403792794 <= Zpos m).
Proof.
  unfold SFleb, SFcompare, lit_0_1.
  destruct (Z.compare_spec (-56) e) as [E|L|G].
  - rewrite Pos.compare_cont_spec. cbn [Pos.switch_Eq].
    rewrite Pos2Z.inj_compare.
    destruct (Z.compare_spec (Zpos 7205759403792794) (Zpos m)) as [E'|L'|G'].
    + split; [intros _; right; split; lia | intros _; reflexivity].
    + split; [intros _; right; split; lia | intros _; reflexivity].
    + split; [discriminate | intros [C|[_ C]]; exfalso; lia].
  - split; [intros _; now left | intros _; reflexivity].
  - split; [discriminate | intros [C|[C _]]; exfalso; lia].
Qed.

(** When the rounded quotient reaches the literal. *)
Lemma leb_lit_rounded m1 e :
  0 <= m1 <= 2 ^ 53 ->
  SFleb lit_0_1 (rounded m1 e) = true
  <-> (-56 < e /\ m1 <> 0) \/ (e = -56 /\ 7205759403792794 <= m1).
Proof.
  intros B. unfold rounded.
  destruct (Z.eqb_spec m1 0) as [Z0|NZ].
  - split; [discriminate | intros [[_ C]|[_ C]]; exfalso; lia].
  - destruct (Z.ltb_spec m1 (2 ^ 53)) as [L|G].
    + rewrite leb_lit_finite. rewrite Z2Pos.id by lia. split.
      * intros [C|C]; auto.
      * intros [[C _]|C]; auto.
    + rewrite leb_lit_finite.
      change (Z.pos (Z.to_pos (2 ^ 52))) with (2 ^ 52). split.
      * intros [C|[C1 C2]]; [|exfalso; lia].
        destruct (Z.eq_dec e (-56)); [right | left]; split; lia.
      * intros [[C _]|[C _]]; left; lia.
Qed.

Lemma new_location_spec t rem :
  0 < t -> 0 <= rem ->
  match new_location t rem with
  | loc_Exact => rem = 0
  | loc_Inexact Lt => 0 < rem /\ 2 * rem < t
  | loc_Inexact Eq => 0 < rem /\ 2 * rem = t
  | loc_Inexact Gt => 0 < rem /\ t < 2 * rem
  end.
Proof.
  intros T R. unfold new_location.
  destruct (Z.even t) eqn:E.
  - unfold new_location_even. destruct (Z.eqb_spec rem 0) as [Z0|NZ]; auto.
    destruct (Z.compare_spec (2 * rem) t); lia.
  - unfold new_location_odd. destruct (Z.eqb_spec rem 0) as [Z0|NZ]; auto.
    assert (O : Z.odd t = true) by (rewrite <- Z.negb_even, E; reflexivity).
    apply Z.odd_spec in O. destruct O as [k O].
    destruct (Z.compare_spec (2 * rem + 1) t); lia.
Qed.

(** The rounded mantissa, from the remainder of the division. *)
Lemma round_new_location q t rem :
  0 < t -> 0 <= rem < t ->
  let m1 := round_nearest_even q (new_location t rem) in
  (2 * rem < t -> m1 = q)
  /\ (t < 2 * rem -> m1 = q + 1)
  /\ (2 * rem = t -> m1 = if Z.even q then q else q + 1).
Proof.
  intros T R. pose proof (new_location_spec t rem T (proj1 R)) as S.
  destruct (new_location t rem) as [|[]]; cbn [round_nearest_even];
    repeat split; intros; first [reflexivity | lia | exfalso; lia].
Qed.

Lemma round_shifted q loc :
  let m1 := round_nearest_even (q / 2) (shifted_loc q loc) in
  (Z.odd q = false -> m1 = q / 2)
  /\ (Z.odd q = true -> Z.odd (q / 2) = true -> m1 = q / 2 + 1).
Proof.
  unfold shifted_loc. split; intros O.
  - rewrite O. now destruct loc as [|[]].
  - intros O2. rewrite O.
    assert (E : Z.even (q / 2) = false) by (rewrite <- Z.negb_odd, O2; reflexivity).
    destruct loc; cbn [round_nearest_even]; now rewrite ?E.
Qed.

Lemma Zdigits2_mono (r t : positive) :
  Zpos r <= Zpos t -> Zdigits2 (Zpos r) <= Zdigits2 (Zpos t).
Proof.
  intros L. cbn [Zdigits2]. pose proof (digits2_pos_bounds r) as [Lr _].
  pose proof (digits2_pos_bounds t) as [_ Ut].
  destruct (Z_le_gt_dec (Zpos (digits2_pos r)) (Zpos (digits2_pos t))) as [C|C]; auto.
  assert (2 ^ Zpos (digits2_pos t) <= 2 ^ (Zpos (digits2_pos r) - 1))
    by (apply Z.pow_le_mono_r; lia).
  lia.
Qed.

(** What [SFdiv] computes on two positive integers [r <= t]. *)
Lemma SFdiv_ints (r t : positive) :
  Zpos r <= Zpos t ->
  let e0 := fexp prec emax (Zdigits2 (Zpos r) - Zdigits2 (Zpos t)) in
  exists q rem,
    q * Zpos t + rem = Zpos r * 2 ^ (- e0)
    /\ 0 <= rem < Zpos t
    /\ SFdiv prec emax (S754_finite false r 0) (S754_finite false t 0)
       = binary_round_aux prec emax false q e0 (new_location (Zpos t) rem).
Proof.
  intros L e0.
  pose proof (Zdigits2_mono r t L) as D.
  assert (E0 : e0 <= -53) by (unfold e0; rewrite fexp_eq; lia).
  exists (Zpos r * 2 ^ (- e0) / Zpos t), ((Zpos r * 2 ^ (- e0)) mod Zpos t).
  split; [|split].
  - pose proof (Z.div_mod (Zpos r * 2 ^ (- e0)) (Zpos t)). lia.
  - apply Z.mod_pos_bound. lia.
  - unfold SFdiv, SFdiv_core_binary.
    rewrite !Z.add_0_r, Z.sub_diag. fold e0.
    rewrite Z.min_l by lia. rewrite Z.sub_0_l.
    destruct (- e0) as [|s|s] eqn:S; try lia.
    rewrite Z.shiftl_mul_pow2 by lia.
    unfold Z.div, Z.modulo.
    destruct (Z.div_eucl (Zpos r * 2 ^ Zpos s) (Zpos t)) as [q rem].
    reflexivity.
Qed.

Lemma mul_le_r a b t : 0 < t -> a <= b -> a * t <= b * t.
Proof. intros. apply Z.mul_le_mono_nonneg_r; lia. Qed.

Lemma mul_le_l a b r : 0 < r -> a <= b -> r * a <= r * b.
Proof. intros. apply Z.mul_le_mono_nonneg_l; lia. Qed.

(** Quotients of 53 bits: no bit is shifted out before rounding. *)
Lemma ge_tenth_53 q rem R T P e0 :
  0 < R -> 0 < T -> 0 <= rem < T -> q * T + rem = R * P ->
  2 ^ 52 <= q < 2 ^ 53 -> -1074 <= e0 <= -53 ->
  (-56 < e0 -> P <= 2 ^ 55) -> (e0 = -56 -> P = 2 ^ 56) -> (e0 < -56 -> 2 ^ 57 <= P) ->
  SFleb lit_0_1 (binary_round_aux prec emax false q e0 (new_location T rem)) = true
  <-> tie_numerator * T <= R * 2 ^ 57.
Proof.
  intros HR HT Hrem Hdiv Hq He P1 P2 P3.
  assert (D : Zdigits2 q = 53) by (apply Zdigits2_unique; [exact Hq | lia]).
  rewrite binary_round_aux_noshift; [| lia | rewrite D, fexp_eq; lia | lia].
  pose proof (round_nearest_even_bounds q (new_location T rem)) as B.
  rewrite leb_lit_rounded by lia.
  pose proof (round_new_location q T rem HT Hrem) as (R1 & R2 & R3).
  set (m1 := round_nearest_even q (new_location T rem)) in *.
  unfold tie_numerator. fold lit_mantissa.
  destruct (Z_lt_le_dec (-56) e0) as [C|C].
  - (* above the binade of the literal *)
    pose proof (mul_le_r _ _ T HT (proj1 Hq)).
    pose proof (mul_le_l _ _ R HR (P1 C)).
    split; [intros _; lia | intros _; left; lia].
  - destruct (Z.eq_dec e0 (-56)) as [E|NE].
    + (* the binade of the literal *)
      rewrite (P2 E) in Hdiv.
      assert (EV : Z.even (lit_mantissa - 1) = false) by reflexivity.
      destruct (Z_le_gt_dec q (lit_mantissa - 2)) as [Q1|Q1];
        [pose proof (mul_le_r _ _ T HT Q1)|].
      * split; [intros [[X _]|[_ X]]; exfalso; unfold lit_mantissa in *; lia|].
        intros X. exfalso. unfold lit_mantissa in *. lia.
      * destruct (Z.eq_dec q (lit_mantissa - 1)) as [Q2|Q2].
        -- subst q.
           destruct (Z.lt_trichotomy (2 * rem) T) as [U|[U|U]].
           ++ rewrite (R1 U) in *. unfold lit_mantissa in *.
              split; [intros [[X _]|[_ X]]; exfalso; lia | intros X; exfalso; lia].
           ++ rewrite (R3 U), EV in *. unfold lit_mantissa in *.
              split; [intros _; lia | intros _; right; lia].
           ++ rewrite (R2 U) in *. unfold lit_mantissa in *.
              split; [intros _; lia | intros _; right; lia].
        -- assert (Q3 : lit_mantissa <= q) by lia.
           pose proof (mul_le_r _ _ T HT Q3). unfold lit_mantissa in *.
           split; [intros _; lia | intros _; right; lia].
    + (* below the binade of the literal *)
      assert (C' : e0 < -56) by lia.
      pose proof (mul_le_l _ _ R HR (P3 C')).
      assert (Q1 : q + 1 <= 2 ^ 53) by lia.
      pose proof (mul_le_r _ _ T HT Q1). unfold lit_mantissa in *.
      split; [intros [[X _]|[X _]]; exfalso; lia | intros X; exfalso; lia].
Qed.

(** Quotients of 54 bits: the last bit is shifted out before rounding. *)
Lemma ge_tenth_54 q rem R T P e0 :
  0 < R -> 0 < T -> 0 <= rem < T -> q * T + rem = R * P ->
  2 ^ 53 <= q < 2 ^ 54 -> -1074 <= e0 <= -53 ->
  (-57 < e0 -> P <= 2 ^ 56) -> (e0 = -57 -> P = 2 ^ 57) -> (e0 < -57 -> 2 ^ 58 <= P) ->
  SFleb lit_0_1 (binary_round_aux prec emax false q e0 (new_location T rem)) = true
  <-> tie_numerator * T <= R * 2 ^ 57.
Proof.
  intros HR HT Hrem Hdiv Hq He P1 P2 P3.
  rewrite binary_round_aux_shift by lia.
  assert (Hh : 2 ^ 52 <= q / 2 < 2 ^ 53).
  { split; [apply Z.div_le_lower_bound | apply Z.div_lt_upper_bound]; lia. }
  pose proof (round_nearest_even_bounds (q / 2) (shifted_loc q (new_location T rem))) as B.
  rewrite leb_lit_rounded by lia.
  pose proof (round_shifted q (new_location T rem)) as (S1 & S2).
  set (m1 := round_nearest_even (q / 2) (shifted_loc q (new_location T rem))) in *.
  pose proof (Z.div_mod q 2 ltac:(lia)) as Eq2.
  rewrite Zmod_odd in Eq2.
  unfold tie_numerator. fold lit_mantissa.
  destruct (Z_lt_le_dec (-57) e0) as [C|C].
  - pose proof (mul_le_r _ _ T HT (proj1 Hq)).
    pose proof (mul_le_l _ _ R HR (P1 C)).
    split; [intros _; lia | intros _; left; lia].
  - destruct (Z.eq_dec e0 (-57)) as [E|NE].
    + rewrite (P2 E) in Hdiv.
      assert (OD : Z.odd (lit_mantissa - 1) = true) by reflexivity.
      destruct (Z_le_gt_dec (q / 2) (lit_mantissa - 2)) as [Q1|Q1].
      * assert (Q1' : q <= 2 * lit_mantissa - 3) by (destruct (Z.odd q); lia).
        pose proof (mul_le_r _ _ T HT Q1'). unfold lit_mantissa in *.
        split; [intros [[X _]|[_ X]]; exfalso; lia | intros X; exfalso; lia].
      * destruct (Z.eq_dec (q / 2) (lit_mantissa - 1)) as [Q2|Q2].
        -- destruct (Z.odd q) eqn:O.
           ++ assert (Q : q = 2 * lit_mantissa - 1) by lia.
              rewrite Q2 in S2. specialize (S2 eq_refl OD).
              rewrite S2. rewrite Q in Hdiv. unfold lit_mantissa in *.
              split; [intros _; lia | intros _; right; lia].
           ++ assert (Q : q = 2 * lit_mantissa - 2) by lia.
              specialize (S1 eq_refl). rewrite S1, Q2. rewrite Q in Hdiv.
              unfold lit_mantissa in *.
              split; [intros [[X _]|[_ X]]; exfalso; lia | intros X; exfalso; lia].
        -- assert (Q3 : 2 * lit_mantissa <= q) by (destruct (Z.odd q); lia).
           pose proof (mul_le_r _ _ T HT Q3). unfold lit_mantissa in *.
           split; [intros _; lia | intros _; right; lia].
    + assert (C' : e0 < -57) by lia.
      pose proof (mul_le_l _ _ R HR (P3 C')).
      assert (Q1 : q + 1 <= 2 ^ 54) by lia.
      pose proof (mul_le_r _ _ T HT Q1). unfold lit_mantissa in *.
      split; [intros [[X _]|[X _]]; exfalso; lia | intros X; exfalso; lia].
Qed.

(** Quotients below the normal range. *)
Lemma ge_tenth_subnormal q rem R T :
  0 < R -> 0 < T -> 0 <= rem < T -> q * T + rem = R * 2 ^ 1074 ->
  0 <= q < 2 ^ 53 ->
  SFleb lit_0_1 (binary_round_aux prec emax false q (-1074) (new_location T rem)) = true
  <-> tie_numerator * T <= R * 2 ^ 57.
Proof.
  intros HR HT Hrem Hdiv Hq.
  assert (F : fexp prec emax (Zdigits2 q + -1074) = -1074).
  { rewrite fexp_eq. destruct (Z.eq_dec q 0) as [->|NZ]; [reflexivity|].
    pose proof (Zdigits2_le_53 q ltac:(lia)). lia. }
  rewrite binary_round_aux_noshift; [| lia | exact F | lia].
  pose proof (round_nearest_even_bounds q (new_location T rem)) as B.
  rewrite leb_lit_rounded by lia.
  assert (Q1 : q + 1 <= 2 ^ 53) by lia.
  pose proof (mul_le_r _ _ T HT Q1).
  assert (W : R * (2 ^ 57 * 2 ^ 1017) = R * 2 ^ 1074)
    by (rewrite <- Z.pow_add_r by lia; reflexivity).
  assert (G : 2 ^ 53 <= 2 ^ 1017) by (apply Z.pow_le_mono_r; lia).
  assert (X1 : R * 2 ^ 57 * 2 ^ 53 <= R * 2 ^ 57 * 2 ^ 1017)
    by (apply Z.mul_le_mono_nonneg_l; lia).
  unfold tie_numerator.
  split; [intros [[X _]|[X _]]; exfalso; lia | intros X; exfalso].
  assert (R * 2 ^ 57 * 2 ^ 1017 < 2 ^ 53 * T) by lia.
  lia.
Qed.

Lemma quotient_lt q T c B :
  0 < T -> 0 <= B -> q * T <= B -> B < c * T -> q < c.
Proof.
  intros HT HB L U. destruct (Z_lt_le_dec q c) as [C|C]; auto.
  pose proof (mul_le_r _ _ T HT C). lia.
Qed.

Lemma quotient_ge q T rem c B :
  0 < T -> 0 <= rem < T -> q * T + rem = B -> c * T <= B -> c <= q.
Proof.
  intros HT Hrem E L. destruct (Z_lt_le_dec q c) as [C|C]; auto.
  assert (C' : q + 1 <= c) by lia.
  pose proof (mul_le_r _ _ T HT C'). lia.
Qed.

(** The comparison of line 176 on two positive integers [r <= t], in
    exact arithmetic. *)
Lemma truediv_ge_tenth (r t : positive) :
  Zpos r <= Zpos t ->
  SFleb lit_0_1 (SFdiv prec emax (S754_finite false r 0) (S754_finite false t 0)) = true
  <-> tie_numerator * Zpos t <= Zpos r * 2 ^ 57.
Proof.
  intros L.
  destruct (SFdiv_ints r t L) as (q & rem & Hdiv & Hrem & ->).
  pose proof (Zdigits2_mono r t L) as D.
  cbn [Zdigits2] in *.
  pose proof (digits2_pos_bounds r) as [Lr Ur].
  pose proof (digits2_pos_bounds t) as [Lt Ut].
  set (d1 := Zpos (digits2_pos r)) in *.
  set (d2 := Zpos (digits2_pos t)) in *.
  assert (D1 : 0 < d1) by (unfold d1; lia).
  assert (D2 : 0 < d2) by (unfold d2; lia).
  assert (Ur' : 2 ^ d1 = 2 * 2 ^ (d1 - 1)).
  { replace d1 with (Z.succ (d1 - 1)) at 1 by lia. apply Z.pow_succ_r. lia. }
  assert (Ut' : 2 ^ d2 = 2 * 2 ^ (d2 - 1)).
  { replace d2 with (Z.succ (d2 - 1)) at 1 by lia. apply Z.pow_succ_r. lia. }
  set (a := 2 ^ (d1 - 1)) in *. set (b := 2 ^ (d2 - 1)) in *.
  set (R := Zpos r) in *. set (T := Zpos t) in *.
  assert (HR : 0 < R) by (unfold R; lia).
  assert (HT : 0 < T) by (unfold T; lia).
  rewrite fexp_eq in *.
  destruct (Z_le_gt_dec (-1074) (d1 - d2 - 53)) as [N|S].
  - (* normal range *)
    rewrite Z.max_l in * by lia.
    set (e0 := d1 - d2 - 53) in *.
    set (P := 2 ^ (- e0)) in *.
    assert (HP : 0 < P) by (apply Z.pow_pos_nonneg; unfold e0; lia).
    assert (Pa : P * a = 2 ^ 53 * b).
    { unfold P, a, b, e0. rewrite <- !Z.pow_add_r by lia. f_equal. lia. }
    assert (X1 : P * a <= R * P) by (rewrite (Z.mul_comm R P); apply mul_le_l; lia).
    assert (X2 : R * P < P * (2 * a)).
    { rewrite (Z.mul_comm R P). apply Z.mul_lt_mono_pos_l; lia. }
    assert (Q1 : 2 ^ 52 <= q).
    { apply (quotient_ge q T rem (2 ^ 52) (R * P)); auto. lia. }
    assert (Q2 : q < 2 ^ 54).
    { apply (quotient_lt q T (2 ^ 54) (R * P)); lia. }
    destruct (Z_lt_le_dec q (2 ^ 53)) as [C|C].
    + apply (ge_tenth_53 q rem R T P e0); auto; try (unfold e0; lia).
      * intros G. unfold P. apply Z.pow_le_mono_r; lia.
      * intros G. unfold P. now rewrite G.
      * intros G. unfold P. apply Z.pow_le_mono_r; lia.
    + apply (ge_tenth_54 q rem R T P e0); auto; try (unfold e0; lia).
      * intros G. unfold P. apply Z.pow_le_mono_r; lia.
      * intros G. unfold P. now rewrite G.
      * intros G. unfold P. apply Z.pow_le_mono_r; lia.
  - (* below the normal range *)
    rewrite Z.max_r in * by lia. change (- -1074) with 1074 in Hdiv.
    assert (G : 2 ^ d1 * 2 ^ 1074 <= 2 ^ 53 * b).
    { unfold b. rewrite <- !Z.pow_add_r by lia. apply Z.pow_le_mono_r; lia. }
    assert (X : R * 2 ^ 1074 < 2 ^ d1 * 2 ^ 1074).
    { apply Z.mul_lt_mono_pos_r; [apply Z.pow_pos_nonneg|]; lia. }
    assert (Y : 2 ^ 53 * b <= 2 ^ 53 * T) by (apply mul_le_l; lia).
    assert (Q0 : 0 <= q).
    { apply (quotient_ge q T rem 0 (R * 2 ^ 1074)); auto. lia. }
    assert (Q2 : q < 2 ^ 53).
    { apply (quotient_lt q T (2 ^ 53) (R * 2 ^ 1074)); lia. }
    apply ge_tenth_subnormal; auto.
Qed.

End PyFloatFacts.

(** * The game registry *)

Lemma registry_of_keys games : forall d id,
  In id (PyDict.keys (registry_of games d))
  <-> In id (PyDict.keys d) \/ In id (map gameId games).
Proof.
  induction games as [|g games IH]; intros d id.
  - cbn. tauto.
  - change (registry_of (g :: games) d)
      with (registry_of games (PyDict.set d (gameId g) g)).
    rewrite IH, In_keys_set. cbn.
    split; [intros [[E|I]|I] | intros [I|[E|I]]]; auto.
Qed.

Lemma registry_of_wf games : forall d,
  PyDict.wf d -> PyDict.wf (registry_of games d).
Proof.
  induction games as [|g games IH]; intros d W; auto.
  change (registry_of (g :: games) d)
    with (registry_of games (PyDict.set d (gameId g) g)).
  apply IH. now apply wf_set.
Qed.

Lemma find_snoc {A : Type} (f : A -> bool) (l : list A) (x : A) :
  find f (l ++ [x]) =
  match find f l with
  | Some y => Some y
  | None => if f x then Some x else None
  end.
Proof.
  induction l as [|a l IH]; cbn; auto.
  destruct (f a); auto.
Qed.

Lemma registry_of_get games : forall d id,
  PyDict.get (registry_of games d) id =
  match find (fun g => String.eqb (gameId g) id) (rev games) with
  | Some g => Some g
  | None => PyDict.get d id
  end.
Proof.
  induction games as [|g games IH]; intros d id; auto.
  change (registry_of (g :: games) d)
    with (registry_of games (PyDict.set d (gameId g) g)).
  rewrite IH. cbn [rev]. rewrite find_snoc.
  destruct (find _ (rev games)); auto.
  destruct (String.eqb (gameId g) id) eqn:E.
  - apply String.eqb_eq in E. subst. apply get_set_eq.
  - apply String.eqb_neq in E. now apply get_set_ne.
Qed.

Lemma registry_of_nonempty g games d : registry_of (g :: games) d <> [].
Proof.
  intros E.
  assert (I : In (gameId g) (PyDict.keys (registry_of (g :: games) d))).
  { apply registry_of_keys. right. now left. }
  rewrite E in I. destruct I.
Qed.

(** C6. A refresh that succeeds replaces the cached games by exactly the
    fetched ones: the ids of the new snapshot are the fetched ids, each
    once, every id maps to the game fetched under it (the last one if the
    server repeats an id), and nothing of the previous snapshot is left;
    after [[g1]] then [[g2]] the ids are [[gameId g2]]. A refresh whose
    fetch fails leaves the whole state as it was. *)
Theorem update_ongoing_games_replaces_snapshot :
  (forall games b id,
      In id (get_ongoing_game_ids (update_ongoing_games (Some games) b))
      <-> In id (map gameId games))
  /\ (forall games b,
      NoDup (get_ongoing_game_ids (update_ongoing_games (Some games) b)))
  /\ (forall games b id,
      PyDict.get (ongoing_games (update_ongoing_games (Some games) b)) id
      = find (fun g => String.eqb (gameId g) id) (rev games))
  /\ (forall games b b',
      ongoing_games (update_ongoing_games (Some games) b)
      = ongoing_games (update_ongoing_games (Some games) b'))
  /\ (forall g1 g2 b,
      get_ongoing_game_ids
        (update_ongoing_games (Some [g2]) (update_ongoing_games (Some [g1]) b))
      = [gameId g2])
  /\ (forall b, update_ongoing_games None b = b).
Proof.
  repeat split.
  - cbn. intros I. apply (registry_of_keys games []) in I. now destruct I.
  - cbn. intros I. apply (registry_of_keys games []). now right.
  - intros games b. apply (registry_of_wf games []). constructor.
  - intros games b id. cbn.
    change (fold_left _ games []) with (registry_of games []).
    rewrite registry_of_get. now destruct (find _ (rev games)).
Qed.

(** * Challenges *)

(** C8. A challenge is accepted exactly when the refreshed registry holds
    no game and the challenge is not rated, and declined otherwise; the
    registry consulted is the one just fetched, or the previous snapshot
    when the fetch failed. *)
Theorem challenge_accepted_iff_idle_and_unrated :
  (forall games c b,
      fst (treat_incoming_event (Some games) (challenge c) b)
      = match games, rated c with
        | [], false => [accept_call (challenge_id c)]
        | _, _ => [decline_call (challenge_id c)]
        end)
  /\ (forall c b,
      fst (treat_incoming_event None (challenge c) b)
      = match get_ongoing_game_ids b, rated c with
        | [], false => [accept_call (challenge_id c)]
        | _, _ => [decline_call (challenge_id c)]
        end)
  /\ (forall fetch c b,
      snd (treat_incoming_event fetch (challenge c) b)
      = update_ongoing_games fetch b).
Proof.
  repeat split.
  - intros games c b. unfold treat_incoming_event, validate_challenge_event.
    destruct games as [|g games].
    + cbn. now destruct (rated c).
    + change (ongoing_games (update_ongoing_games (Some (g :: games)) b))
        with (registry_of (g :: games) []).
      destruct (registry_of (g :: games) []) eqn:E.
      * now apply registry_of_nonempty in E.
      * cbn. now destruct (rated c).
  - intros c b. unfold treat_incoming_event, validate_challenge_event,
      get_ongoing_game_ids. cbn.
    destruct (ongoing_games b) as [|[k v] r]; cbn; now destruct (rated c).
  - intros fetch c b. unfold treat_incoming_event, validate_challenge_event.
    now destruct (_ && _)%bool.
Qed.

(** * The move arbiter *)

Lemma anarchy_move_first_non_resign (moves : list candidate) :
  NoDup moves -> anarchy_move moves = first_non_resign moves.
Proof.
  unfold first_non_resign. destruct moves as [|m rest]; cbn [anarchy_move find]; auto.
  intros N. destruct (key_eqb m (CStr RESIGN_MOVE_STR)) eqn:E; cbn [negb]; auto.
  destruct rest as [|m1 rest]; cbn [find]; auto.
  apply key_eqb_spec in E. subst m.
  inversion N as [|? ? N1 _]; subst.
  rewrite key_eqb_neq; auto.
  intros ->. apply N1. now left.
Qed.

Lemma first_non_resign_None (moves : list candidate) :
  NoDup moves -> moves <> [] -> first_non_resign moves = None ->
  moves = [CStr RESIGN_MOVE_STR].
Proof.
  intros N NE F. rewrite <- anarchy_move_first_non_resign in F by assumption.
  destruct moves as [|m rest]; [congruence|]. cbn in F.
  destruct (candidate_eqb m (CStr RESIGN_MOVE_STR)) eqn:E; [|discriminate].
  apply candidate_eqb_eq in E. subst. now destruct rest.
Qed.

(** The body of the loop when the game is going on and has a round. *)
Lemma body_on_round ret game_id h votes :
  PyDict.mem (ongoing_games (bot_chess h)) game_id = true ->
  PyDict.get (game_move_votes (bot_chess h)) game_id = Some votes ->
  votes <> [] ->
  thread_make_move_handler_body ret game_id h =
  if String.eqb (mode (bot_chess h)) "anarchy" then
    match anarchy_move (PyDict.keys votes) with
    | None => (loop_continue, resigned_calls game_id votes, h)
    | Some move =>
        (loop_next, resigned_calls game_id votes ++ [make_move_call game_id move],
         reset_users_voted_moves game_id
           (set_bot_chess h
              (set_game_move_votes (bot_chess h)
                 (PyDict.set (game_move_votes (bot_chess h)) game_id
                    (if ret then [] else PyDict.del votes move)))))
    end
  else (loop_next, resigned_calls game_id votes, reset_users_voted_moves game_id h).
Proof.
  intros O G NE. unfold thread_make_move_handler_body. rewrite O, G. cbn [negb].
  destruct votes as [|kv votes]; [congruence|]. reflexivity.
Qed.

Lemma reset_clears_flags game_id h user :
  get_has_user_already_voted game_id user (reset_users_voted_moves game_id h) = false.
Proof.
  unfold reset_users_voted_moves, get_has_user_already_voted, PyDict.mem.
  destruct (PyDict.get (users_already_voted h) game_id) eqn:E; cbn.
  - now rewrite get_set_eq.
  - now rewrite E.
Qed.

Lemma reset_other_game game_id h other :
  game_id <> other ->
  PyDict.get (users_already_voted (reset_users_voted_moves game_id h)) other
  = PyDict.get (users_already_voted h) other.
Proof.
  intros N. unfold reset_users_voted_moves.
  destruct (PyDict.mem _ _); cbn; auto. now apply get_set_ne.
Qed.

Lemma reset_bot_chess game_id h :
  bot_chess (reset_users_voted_moves game_id h) = bot_chess h.
Proof. unfold reset_users_voted_moves. now destruct (PyDict.mem _ _). Qed.

(** A cycle that calls [make_move] ran the anarchy branch on a round. *)
Lemma body_submits_inv ret game_id h move :
  In (make_move_call game_id move)
     (snd (fst (thread_make_move_handler_body ret game_id h))) ->
  exists votes,
    PyDict.get (game_move_votes (bot_chess h)) game_id = Some votes
    /\ anarchy_move (PyDict.keys votes) = Some move
    /\ thread_make_move_handler_body ret game_id h =
       (loop_next, resigned_calls game_id votes ++ [make_move_call game_id move],
        reset_users_voted_moves game_id
          (set_bot_chess h
             (set_game_move_votes (bot_chess h)
                (PyDict.set (game_move_votes (bot_chess h)) game_id
                   (if ret then [] else PyDict.del votes move))))).
Proof.
  assert (R : forall v c, In (make_move_call game_id c) (resigned_calls game_id v) -> False).
  { intros v c. unfold resigned_calls. destruct (resign_rule _ _); cbn; [|tauto].
    intros [E|[]]. discriminate. }
  destruct (PyDict.mem (ongoing_games (bot_chess h)) game_id) eqn:O.
  2:{ unfold thread_make_move_handler_body. rewrite O. cbn. tauto. }
  destruct (PyDict.get (game_move_votes (bot_chess h)) game_id) as [votes|] eqn:G.
  2:{ unfold thread_make_move_handler_body. rewrite O, G. cbn. tauto. }
  destruct votes as [|kv votes'] eqn:V.
  { unfold thread_make_move_handler_body. rewrite O, G. cbn. tauto. }
  rewrite <- V in *. assert (NE : votes <> []) by (rewrite V; discriminate).
  rewrite (body_on_round ret game_id h votes O G NE).
  destruct (String.eqb (mode (bot_chess h)) "anarchy").
  - destruct (anarchy_move (PyDict.keys votes)) as [m|] eqn:A; cbn [fst snd].
    + rewrite in_app_iff. intros [I|[E|[]]]; [now apply R in I|].
      injection E as ->. exists votes. auto.
    + intros I. now apply R in I.
  - cbn [fst snd]. intros I. now apply R in I.
Qed.

Lemma anarchy_move_In moves move :
  anarchy_move moves = Some move -> In move moves.
Proof.
  destruct moves as [|m rest]; cbn; [discriminate|].
  destruct (candidate_eqb m (CStr RESIGN_MOVE_STR)).
  - destruct rest; [discriminate|]. intros [= ->]. cbn. auto.
  - intros [= ->]. auto.
Qed.

(** C3. In a cycle that submits a move: on success the game's round
    becomes empty, on failure the round loses exactly the submitted
    candidate and keeps every other candidate with its count; in both
    cases no user is marked as having voted in that game any more. The
    rounds and marks of the other games do not change. *)
Theorem make_move_outcome_updates_round ret game_id h move :
  ledger_wf (bot_chess h) ->
  In (make_move_call game_id move)
     (snd (fst (thread_make_move_handler_body ret game_id h))) ->
  let h' := snd (thread_make_move_handler_body ret game_id h) in
  (forall user, get_has_user_already_voted game_id user h' = false)
  /\ (exists votes votes',
        PyDict.get (game_move_votes (bot_chess h)) game_id = Some votes
        /\ PyDict.get (game_move_votes (bot_chess h')) game_id = Some votes'
        /\ In move (PyDict.keys votes)
        /\ if ret then votes' = []
           else votes' = PyDict.del votes move
                /\ PyDict.get votes' move = None
                /\ forall c, c <> move -> PyDict.get votes' c = PyDict.get votes c)
  /\ (forall other, game_id <> other ->
        PyDict.get (game_move_votes (bot_chess h')) other
        = PyDict.get (game_move_votes (bot_chess h)) other
        /\ PyDict.get (users_already_voted h') other
           = PyDict.get (users_already_voted h) other).
Proof.
  intros W I. destruct (body_submits_inv ret game_id h move I) as (votes & G & A & B).
  rewrite B. cbn [snd]. split; [|split].
  - intros user. apply reset_clears_flags.
  - exists votes, (if ret then [] else PyDict.del votes move).
    rewrite reset_bot_chess. cbn. rewrite get_set_eq.
    repeat split; auto using anarchy_move_In.
    destruct ret; auto. repeat split.
    + apply get_del_eq. now apply (W game_id votes G).
    + intros c N. now apply get_del_ne.
  - intros other N. rewrite reset_bot_chess, reset_other_game by assumption. cbn.
    split; auto. now apply get_set_ne.
Qed.

(** C4. In anarchy mode, on a round that is not empty, the move submitted
    is the first candidate in the order of the dictionary that is not the
    resignation token, and it is the only move submitted; the only other
    call of the cycle is the resignation, if its rule fires. When the
    resignation token is the only candidate, no move is submitted and the
    whole state (counts and voted users) stays as it was. *)
Theorem anarchy_submits_first_non_resign ret game_id h votes :
  String.eqb (mode (bot_chess h)) "anarchy" = true ->
  PyDict.mem (ongoing_games (bot_chess h)) game_id = true ->
  PyDict.get (game_move_votes (bot_chess h)) game_id = Some votes ->
  votes <> [] ->
  PyDict.wf votes ->
  match first_non_resign (PyDict.keys votes) with
  | Some move =>
      fst (thread_make_move_handler_body ret game_id h)
      = (loop_next, resigned_calls game_id votes ++ [make_move_call game_id move])
  | None =>
      PyDict.keys votes = [CStr RESIGN_MOVE_STR]
      /\ thread_make_move_handler_body ret game_id h
         = (loop_continue, resigned_calls game_id votes, h)
  end.
Proof.
  intros M O G NE W. rewrite (body_on_round ret game_id h votes O G NE), M.
  rewrite (anarchy_move_first_non_resign _ W).
  destruct (first_non_resign (PyDict.keys votes)) eqn:F; auto.
  split; auto. apply first_non_resign_None; auto.
  destruct votes; [congruence | discriminate].
Qed.

Lemma resign_rule_nonempty votes : resign_rule votes (PyDict.keys votes) = true -> votes <> [].
Proof. intros R ->. discriminate. Qed.

(** C5 (amended). When the resignation rule fires the game is resigned
    first, and the cycle goes on as in any other cycle: in anarchy mode
    the first candidate that is not the resignation token, if there is
    one, is submitted in the same cycle; no move is submitted only when
    the resignation token is the sole candidate, or outside anarchy
    mode. *)
Theorem resign_rule_then_selection ret game_id h votes :
  PyDict.mem (ongoing_games (bot_chess h)) game_id = true ->
  PyDict.get (game_move_votes (bot_chess h)) game_id = Some votes ->
  PyDict.wf votes ->
  resign_rule votes (PyDict.keys votes) = true ->
  snd (fst (thread_make_move_handler_body ret game_id h))
  = resign_game_call game_id ::
    (if String.eqb (mode (bot_chess h)) "anarchy" then
       match first_non_resign (PyDict.keys votes) with
       | Some move => [make_move_call game_id move]
       | None => []
       end
     else []).
Proof.
  intros O G W R.
  rewrite (body_on_round ret game_id h votes O G (resign_rule_nonempty _ R)).
  rewrite (anarchy_move_first_non_resign _ W).
  unfold resigned_calls. rewrite R.
  destruct (String.eqb _ _); auto.
  now destruct (first_non_resign _).
Qed.

(** * The vote ledger *)

Lemma add_vote_round all game_id key :
  round_of (add_vote all game_id key) game_id
  = let votes := round_of all game_id in
    let votes := if PyDict.mem votes key then votes else PyDict.set votes key 0 in
    PyDict.set votes key (count_of votes key + 1).
Proof.
  unfold add_vote, round_of, PyDict.mem.
  destruct (PyDict.get all game_id) eqn:G; rewrite !get_set_eq; auto.
  now rewrite G.
Qed.

Lemma add_vote_other all game_id key other :
  game_id <> other ->
  PyDict.get (add_vote all game_id key) other = PyDict.get all other.
Proof.
  intros N. unfold add_vote. rewrite get_set_ne by assumption.
  destruct (PyDict.mem all game_id); auto. now apply get_set_ne.
Qed.

Lemma add_vote_count all game_id key :
  count_of (round_of (add_vote all game_id key) game_id) key
  = count_of (round_of all game_id) key + 1.
Proof.
  rewrite add_vote_round. cbv zeta. unfold count_of at 1. rewrite get_set_eq.
  unfold PyDict.mem, count_of.
  destruct (PyDict.get (round_of all game_id) key) eqn:G.
  - now rewrite G.
  - now rewrite get_set_eq.
Qed.

Lemma add_vote_count_other all game_id key c :
  key <> c ->
  PyDict.get (round_of (add_vote all game_id key) game_id) c
  = PyDict.get (round_of all game_id) c.
Proof.
  intros N. rewrite add_vote_round. cbv zeta. rewrite get_set_ne by assumption.
  destruct (PyDict.mem _ _); auto. now apply get_set_ne.
Qed.

Lemma Forall_set_pos (votes : dict candidate Z) key n :
  0 < n -> Forall (fun kv => 0 < snd kv) votes ->
  Forall (fun kv => 0 < snd kv) (PyDict.set votes key n).
Proof.
  intros P F. induction votes as [|[k v] r IH]; cbn.
  - now repeat constructor.
  - inversion F; subst. destruct (candidate_eqb k key); constructor; auto.
Qed.

Lemma Forall_set_same_pos (votes : dict candidate Z) key m n :
  0 < n -> Forall (fun kv => 0 < snd kv) votes ->
  Forall (fun kv => 0 < snd kv) (PyDict.set (PyDict.set votes key m) key n).
Proof.
  intros P F. induction votes as [|[k v] r IH]; cbn.
  - rewrite (proj2 (candidate_eqb_eq key key) eq_refl). now repeat constructor.
  - inversion F; subst. destruct (candidate_eqb k key) eqn:E; cbn; rewrite E;
      constructor; auto.
Qed.

Lemma Forall_del_pos (votes : dict candidate Z) key :
  Forall (fun kv => 0 < snd kv) votes ->
  Forall (fun kv => 0 < snd kv) (PyDict.del votes key).
Proof.
  intros F. induction votes as [|[k v] r IH]; cbn; auto.
  inversion F; subst. destruct (candidate_eqb k key); auto.
Qed.

Lemma get_pos (votes : dict candidate Z) key n :
  Forall (fun kv => 0 < snd kv) votes -> PyDict.get votes key = Some n -> 0 < n.
Proof.
  intros F. induction votes as [|[k v] r IH]; cbn; [discriminate|].
  inversion F; subst. destruct (candidate_eqb k key); auto.
  now intros [= <-].
Qed.

Lemma round_wf_nil : round_wf [].
Proof. split; constructor. Qed.

(** Counting a vote keeps every round well formed. *)
Lemma add_vote_wf b game_id key :
  ledger_wf b ->
  ledger_wf (set_game_move_votes b (add_vote (game_move_votes b) game_id key)).
Proof.
  intros W g votes. cbn.
  assert (W0 : round_wf (round_of (game_move_votes b) game_id)).
  { unfold round_of.
    destruct (PyDict.get (game_move_votes b) game_id) as [v|] eqn:G0;
      [apply (W game_id v G0) | apply round_wf_nil]. }
  destruct (String.eqb game_id g) eqn:E.
  - apply String.eqb_eq in E. subst g. intros G.
    pose proof (add_vote_round (game_move_votes b) game_id key) as R.
    unfold round_of at 1 in R. rewrite G in R. subst votes. cbv zeta.
    destruct W0 as [N F]. split.
    + apply wf_set. destruct (PyDict.mem _ key); [assumption | now apply wf_set].
    + unfold PyDict.mem, count_of.
      destruct (PyDict.get (round_of (game_move_votes b) game_id) key) eqn:G1.
      * rewrite G1. apply Forall_set_pos; auto.
        pose proof (get_pos _ _ _ F G1). lia.
      * rewrite get_set_eq. apply Forall_set_same_pos; auto. lia.
  - apply String.eqb_neq in E. rewrite add_vote_other by assumption. apply W.
Qed.

(** The arbiter keeps every round well formed. *)
Lemma thread_make_move_handler_body_wf ret game_id h :
  ledger_wf (bot_chess h) ->
  ledger_wf (bot_chess (snd (thread_make_move_handler_body ret game_id h))).
Proof.
  intros W. unfold thread_make_move_handler_body.
  destruct (PyDict.mem (ongoing_games _) _); cbn [negb]; [|exact W].
  destruct (PyDict.get (game_move_votes _) game_id) as [votes|] eqn:G; [|exact W].
  destruct (Nat.eqb _ 0); [exact W|].
  destruct (String.eqb _ _).
  2:{ cbn [snd]. now rewrite reset_bot_chess. }
  destruct (anarchy_move _) as [move|]; [|exact W].
  cbn [snd]. rewrite reset_bot_chess. intros g v. cbn.
  destruct (String.eqb game_id g) eqn:E.
  - apply String.eqb_eq in E. subst g. rewrite get_set_eq. intros [= <-].
    destruct ret; [apply round_wf_nil|].
    destruct (W game_id votes G) as [N F]. split;
      [now apply wf_del | now apply Forall_del_pos].
  - apply String.eqb_neq in E. rewrite get_set_ne by assumption. apply W.
Qed.

(** * Voting from the chat *)

Section VotingFacts.
Variable SAN_REGEX_match : string -> bool.
Variable parse_san : Board -> string -> option Move.

Local Abbreviation vote_for_move := (vote_for_move SAN_REGEX_match parse_san).
Local Abbreviation treat_move_msg := (treat_move_msg SAN_REGEX_match parse_san).
Local Abbreviation thread_twitch_chat_message :=
  (thread_twitch_chat_message SAN_REGEX_match parse_san).

(** When [vote_for_move] returns [True]. *)
Lemma vote_for_move_true_iff game_id move b :
  fst (vote_for_move game_id move b) = true
  <-> get_is_uci move = true
      \/ (SAN_REGEX_match move = true
          /\ exists board m,
               get_board_from_game game_id b = Some board
               /\ parse_san board move = Some m).
Proof.
  unfold vote_for_move, get_is_move_fmt_valid, vote_key.
  destruct (get_is_uci move); cbn.
  - split; auto.
  - destruct (SAN_REGEX_match move); cbn.
    + destruct (get_board_from_game game_id b) as [board|]; cbn.
      * destruct (parse_san board move) as [m|] eqn:P; cbn.
        -- split; auto. intros _. right. split; auto. now exists board, m.
        -- split; [discriminate|]. intros [E|[_ (bd & m & [= <-] & Q)]]; congruence.
      * split; [discriminate|]. intros [E|[_ (bd & m & Q & _)]]; congruence.
    + split; [discriminate|]. intros [E|[E _]]; congruence.
Qed.

(** A refused vote changes nothing. *)
Lemma vote_for_move_false game_id move b :
  fst (vote_for_move game_id move b) = false ->
  snd (vote_for_move game_id move b) = b.
Proof.
  unfold vote_for_move. destruct (negb _); auto.
  destruct (vote_key _ _ _ _); auto. discriminate.
Qed.

(** An accepted vote adds one to one candidate of the game and leaves
    every other count, and every other game, as it was. *)
Lemma vote_for_move_true game_id move b :
  fst (vote_for_move game_id move b) = true ->
  exists key,
    vote_key parse_san game_id move b = Some key
    /\ let b' := snd (vote_for_move game_id move b) in
       count_of (round_of (game_move_votes b') game_id) key
       = count_of (round_of (game_move_votes b) game_id) key + 1
       /\ (forall c, key <> c ->
             PyDict.get (round_of (game_move_votes b') game_id) c
             = PyDict.get (round_of (game_move_votes b) game_id) c)
       /\ (forall other, game_id <> other ->
             PyDict.get (game_move_votes b') other
             = PyDict.get (game_move_votes b) other).
Proof.
  unfold vote_for_move. destruct (negb _); [discriminate|].
  destruct (vote_key _ _ _ _) as [key|]; [|discriminate].
  intros _. exists key. split; auto. cbn. repeat split.
  - apply add_vote_count.
  - intros c N. now apply add_vote_count_other.
  - intros other N. now apply add_vote_other.
Qed.


(** A move vote of a user who has voted in this round is dropped. *)
Lemma treat_move_msg_voted move msg h game_id rest :
  get_game_ids h = game_id :: rest ->
  get_has_user_already_voted game_id (username msg) h = true ->
  treat_move_msg move msg h = h.
Proof. intros I V. unfold treat_move_msg. now rewrite I, V. Qed.

Lemma set_user_marks game_id user h :
  get_has_user_already_voted game_id user
    (set_user_as_already_voted game_id user h) = true.
Proof.
  unfold get_has_user_already_voted, set_user_as_already_voted. cbn.
  rewrite get_set_eq. unfold In_users.
  match goal with
  | |- existsb ?f (if existsb ?f ?l then _ else _) = true =>
      destruct (existsb f l) eqn:E; auto
  end.
  rewrite existsb_app. cbn. now rewrite String.eqb_refl, orb_true_r.
Qed.

(** The first accepted vote of either kind marks the user. *)
Lemma treat_command_resign_marks arg msg h game_id rest :
  get_game_ids h = game_id :: rest ->
  get_has_user_already_voted game_id (username msg)
    (treat_command [("!resign", arg)] msg h) = true.
Proof.
  intros I. unfold treat_command. cbn. rewrite I. cbn. apply set_user_marks.
Qed.

Lemma treat_move_msg_marks move msg h game_id rest :
  get_game_ids h = game_id :: rest ->
  fst (vote_for_move game_id move (bot_chess h)) = true ->
  get_has_user_already_voted game_id (username msg)
    (treat_move_msg move msg h) = true.
Proof.
  intros I V. unfold treat_move_msg. rewrite I.
  destruct (get_has_user_already_voted game_id (username msg) h) eqn:A; auto.
  destruct (vote_for_move game_id move (bot_chess h)) as [ret b]. cbn in V.
  subst ret. apply set_user_marks.
Qed.

(** Every line that is not empty is processed without an exception. *)
Lemma thread_twitch_chat_message_returns msg h :
  message msg <> "" -> returns (thread_twitch_chat_message msg h).
Proof.
  intros N. unfold thread_twitch_chat_message, get_command_from_msg, returns, bind.
  destruct (message msg) as [|c r] eqn:M; [congruence|].
  destruct (negb (Ascii.eqb c "!")).
  - destruct (get_move_from_msg _ _); eexists; reflexivity.
  - destruct (Nat.eqb (List.length (split_space (String c r))) 0).
    + destruct (get_move_from_msg _ _); eexists; reflexivity.
    + destruct (match_command MSG_COMMANDS (split_space (String c r)));
        [eexists; reflexivity|].
      destruct (get_move_from_msg _ _); eexists; reflexivity.
Qed.

End VotingFacts.

(** C2 (the code at the failing input). The [!resign] command does not
    look at the voted flag: two [!resign] lines of one user in one round
    give two resignation votes, and a [!resign] after a move vote of the
    same user is counted as well. *)
Theorem resign_command_counts_repeated_votes :
  thread_twitch_chat_messages start_SAN_REGEX_match start_parse_san
    [chat "alice" "!resign"; chat "alice" "!resign"] (example_bot [] [])
  = Value (example_bot [("g1", [(CStr "resign", 2)])] [("g1", ["alice"])])
  /\ thread_twitch_chat_messages start_SAN_REGEX_match start_parse_san
       [chat "alice" "e2e4"; chat "alice" "!resign"] (example_bot [] [])
     = Value (example_bot [("g1", [(CStr "e2e4", 1); (CStr "resign", 1)])]
                          [("g1", ["alice"])]).
Proof. split; reflexivity. Qed.

(** Whatever the flag says, [!resign] adds a resignation vote. *)
Lemma treat_command_resign_counts arg msg h game_id rest :
  get_game_ids h = game_id :: rest ->
  count_of (round_of (game_move_votes (bot_chess
              (treat_command [("!resign", arg)] msg h))) game_id)
           (CStr RESIGN_MOVE_STR)
  = count_of (round_of (game_move_votes (bot_chess h)) game_id)
             (CStr RESIGN_MOVE_STR) + 1.
Proof.
  intros I. unfold treat_command. cbn. rewrite I. cbn. apply add_vote_count.
Qed.

(** C7 (the code at the failing input). A text that only starts with a
    coordinate move is accepted, whatever follows the first four
    characters, and is counted under the whole text; neither the
    position nor python-chess is consulted. *)
Theorem vote_for_move_accepts_uci_prefix :
  forall SAN_REGEX_match parse_san game_id b,
    String.length "e2e4zzz" = 7%nat
    /\ fst (vote_for_move SAN_REGEX_match parse_san game_id "e2e4zzz" b) = true
    /\ count_of (round_of (game_move_votes
                   (snd (vote_for_move SAN_REGEX_match parse_san game_id "e2e4zzz" b)))
                   game_id) (CStr "e2e4zzz")
       = count_of (round_of (game_move_votes b) game_id) (CStr "e2e4zzz") + 1.
Proof.
  intros. repeat split. cbn. apply add_vote_count.
Qed.

(** A text that [chess.SAN_REGEX] does not match is refused even if
    [parse_san] would resolve it (castling, written O-O). *)
Lemma vote_for_move_gated_by_SAN_REGEX SAN_REGEX_match parse_san game_id move b :
  get_is_uci move = false -> SAN_REGEX_match move = false ->
  vote_for_move SAN_REGEX_match parse_san game_id move b = (false, b).
Proof.
  intros U S. unfold vote_for_move, get_is_move_fmt_valid. now rewrite U, S.
Qed.

(** C9 (the code at the failing input). On the start position the vote
    "e4" is counted under the [chess.Move] object and the vote "e2e4"
    under the text, although the object's coordinate form is "e2e4": one
    move, two candidates with one vote each. *)
Theorem san_and_uci_votes_counted_apart :
  Move_uci e2e4 = "e2e4"
  /\ game_move_votes
       (snd (vote_for_move start_SAN_REGEX_match start_parse_san "g1" "e2e4"
          (snd (vote_for_move start_SAN_REGEX_match start_parse_san "g1" "e4"
             (bot_chess (example_bot [] []))))))
     = [("g1", [(CMove e2e4, 1); (CStr "e2e4", 1)])].
Proof. split; reflexivity. Qed.

(** C10 (the code at the failing input). On the empty line
    [get_command_from_msg] raises [IndexError]; nothing catches it, and
    the chat thread ends with it. *)
Theorem empty_message_raises_IndexError :
  forall SAN_REGEX_match parse_san user rest h,
    thread_twitch_chat_message SAN_REGEX_match parse_san (chat user "") h
    = Raised IndexError
    /\ thread_twitch_chat_body SAN_REGEX_match parse_san
         (Some (chat user "" :: rest)) h
       = Raised IndexError.
Proof. intros. split; reflexivity. Qed.

(** * The resignation rule *)

Lemma fold_left_add_acc (l : list Z) (a : Z) :
  fold_left Z.add l a = a + fold_left Z.add l 0.
Proof.
  revert a. induction l as [|x l IH]; intros a; cbn; [lia|].
  rewrite (IH (a + x)), (IH x). lia.
Qed.

Lemma sum_ge_member (f : candidate -> Z) (l : list candidate) (x : candidate) :
  (forall y, In y l -> 0 <= f y) -> In x l ->
  f x <= fold_left Z.add (map f l) 0 /\ 0 <= fold_left Z.add (map f l) 0.
Proof.
  induction l as [|y l IH]; intros P I; [destruct I|].
  cbn [map fold_left]. rewrite fold_left_add_acc.
  assert (P' : forall z, In z l -> 0 <= f z) by (intros z Iz; apply P; now right).
  assert (N : 0 <= fold_left Z.add (map f l) 0).
  { clear IH I. induction l as [|z l IHl]; cbn [map fold_left]; [lia|].
    rewrite fold_left_add_acc.
    assert (0 <= f z) by (apply P'; now left).
    assert (0 <= fold_left Z.add (map f l) 0).
    { apply IHl. - intros w Iw. apply P. destruct Iw as [<-|Iw]; [now left|].
        right. now right.
      - intros w Iw. apply P'. now right. }
    lia. }
  assert (0 <= f y) by (apply P; now left).
  destruct I as [<-|I]; [lia|].
  destruct (IH P' I). lia.
Qed.

Lemma count_of_pos votes m :
  round_wf votes -> In m (PyDict.keys votes) -> 0 < count_of votes m.
Proof.
  intros [_ F] I. unfold count_of.
  destruct (PyDict.get votes m) as [n|] eqn:G.
  - exact (get_pos votes m n F G).
  - apply get_None_keys in G. contradiction.
Qed.

Lemma count_of_absent (votes : dict candidate Z) m :
  ~ In m (PyDict.keys votes) -> count_of votes m = 0.
Proof.
  intros N. unfold count_of. apply get_None_keys in N. now rewrite N.
Qed.

Lemma In_moves_iff x moves : In_moves x moves = true <-> In x moves.
Proof.
  unfold In_moves. rewrite existsb_exists. split.
  - intros (m & I & E). apply key_eqb_spec in E. now subst.
  - intros I. exists x. split; auto. apply key_eqb_refl.
Qed.

(** The rule as the code evaluates it: the guard [RESIGN_MOVE_STR in moves]
    adds nothing, since without resignation votes the quotient is 0.0. *)
Lemma resign_rule_float votes :
  resign_rule votes (PyDict.keys votes) = true
  <-> 1 <= round_total votes
      /\ PyFloat.ge (PyFloat.int_truediv (resign_votes_of votes) (round_total votes))
                    PyFloat.lit_0_1 = true.
Proof.
  unfold resign_rule, round_total, resign_votes_of, MIN_RESIGN_VOTES,
    MIN_RESIGN_PERCENTAGE_VOTES.
  destruct (In_moves (CStr RESIGN_MOVE_STR) (PyDict.keys votes)) eqn:I.
  - rewrite andb_true_iff, Z.leb_le. tauto.
  - assert (N : ~ In (CStr RESIGN_MOVE_STR) (PyDict.keys votes)).
    { intros C. apply In_moves_iff in C. congruence. }
    rewrite (count_of_absent _ _ N). split; [discriminate|].
    intros [_ G]. destruct (total_votes votes (PyDict.keys votes)); discriminate G.
Qed.

(** The rule in exact arithmetic. *)
Lemma resign_rule_exact votes :
  round_wf votes ->
  resign_rule votes (PyDict.keys votes) = true
  <-> 1 <= round_total votes
      /\ PyFloat.tie_numerator * round_total votes <= resign_votes_of votes * 2 ^ 57.
Proof.
  intros W. rewrite resign_rule_float. unfold round_total, resign_votes_of.
  destruct (In_moves (CStr RESIGN_MOVE_STR) (PyDict.keys votes)) eqn:I.
  - apply In_moves_iff in I.
    pose proof (count_of_pos votes _ W I) as P.
    destruct (sum_ge_member (count_of votes) (PyDict.keys votes) _
                (fun y Iy => Z.lt_le_incl _ _ (count_of_pos votes y W Iy)) I) as [L _].
    fold (total_votes votes (PyDict.keys votes)) in L.
    destruct (count_of votes (CStr RESIGN_MOVE_STR)) as [|r|r] eqn:R; try lia.
    destruct (total_votes votes (PyDict.keys votes)) as [|t|t] eqn:T; try lia.
    unfold PyFloat.ge, PyFloat.int_truediv, PyFloat.of_int.
    rewrite (PyFloatFacts.truediv_ge_tenth r t L). intuition lia.
  - assert (N : ~ In (CStr RESIGN_MOVE_STR) (PyDict.keys votes)).
    { intros C. apply In_moves_iff in C. congruence. }
    rewrite (count_of_absent _ _ N). unfold PyFloat.tie_numerator.
    split; [intros [_ G] | intros [G1 G2]; exfalso; lia].
    destruct (total_votes votes (PyDict.keys votes)); discriminate G.
Qed.

Lemma round_of_wf b game_id : ledger_wf b -> round_wf (round_of (game_move_votes b) game_id).
Proof.
  intros W. unfold round_of.
  destruct (PyDict.get (game_move_votes b) game_id) as [v|] eqn:G;
    [apply (W game_id v G) | apply round_wf_nil].
Qed.

(** When a cycle of the arbiter calls [resign_game]. *)
Lemma body_resigns_iff ret game_id h :
  PyDict.mem (ongoing_games (bot_chess h)) game_id = true ->
  resigns ret game_id h
  <-> resign_rule (round_of (game_move_votes (bot_chess h)) game_id)
        (PyDict.keys (round_of (game_move_votes (bot_chess h)) game_id)) = true.
Proof.
  intros O. unfold resigns, round_of.
  destruct (PyDict.get (game_move_votes (bot_chess h)) game_id) as [votes|] eqn:G.
  2:{ unfold thread_make_move_handler_body. rewrite O, G. cbn.
      split; [tauto | discriminate]. }
  destruct votes as [|kv votes'] eqn:V.
  { unfold thread_make_move_handler_body. rewrite O, G. cbn.
    split; [tauto | discriminate]. }
  rewrite <- V in *. assert (NE : votes <> []) by (rewrite V; discriminate).
  rewrite (body_on_round ret game_id h votes O G NE).
  assert (R : In (resign_game_call game_id) (resigned_calls game_id votes)
              <-> resign_rule votes (PyDict.keys votes) = true).
  { unfold resigned_calls. destruct (resign_rule votes (PyDict.keys votes)); cbn.
    - split; auto.
    - split; [tauto | discriminate]. }
  destruct (String.eqb (mode (bot_chess h)) "anarchy"); [|exact R].
  destruct (anarchy_move (PyDict.keys votes)); cbn [fst snd]; [|exact R].
  rewrite in_app_iff, R. cbn. split; [intros [X|[X|[]]]; [exact X | discriminate X] | auto].
Qed.

(** C1. A cycle of the arbiter resigns the game exactly when the total of
    the round is at least 1 and [resign_votes / total >= 0.1], where the
    resignation count is 0 when nobody voted to resign; the quotient and
    the constant are the binary64 values of the code. For every total below
    [2 ^ 56] this is the exact comparison [10 * resign_votes >= total]. One
    vote in ten resigns, one in eleven does not. *)
Theorem resignation_iff_tenth_of_votes ret game_id h :
  PyDict.mem (ongoing_games (bot_chess h)) game_id = true ->
  ledger_wf (bot_chess h) ->
  (resigns ret game_id h
   <-> 1 <= round_total (round_of (game_move_votes (bot_chess h)) game_id)
       /\ PyFloat.ge
            (PyFloat.int_truediv
               (resign_votes_of (round_of (game_move_votes (bot_chess h)) game_id))
               (round_total (round_of (game_move_votes (bot_chess h)) game_id)))
            PyFloat.lit_0_1 = true)
  /\ (round_total (round_of (game_move_votes (bot_chess h)) game_id) < 2 ^ 56 ->
      (resigns ret game_id h
       <-> 1 <= round_total (round_of (game_move_votes (bot_chess h)) game_id)
           /\ round_total (round_of (game_move_votes (bot_chess h)) game_id)
              <= 10 * resign_votes_of (round_of (game_move_votes (bot_chess h)) game_id)))
  /\ resign_rule [(CStr "resign", 1); (CStr "e2e4", 9)]
                 [CStr "resign"; CStr "e2e4"] = true
  /\ resign_rule [(CStr "resign", 1); (CStr "e2e4", 10)]
                 [CStr "resign"; CStr "e2e4"] = false.
Proof.
  intros O W. rewrite (body_resigns_iff ret game_id h O).
  set (votes := round_of (game_move_votes (bot_chess h)) game_id).
  split; [apply resign_rule_float|]. split; [|split; vm_compute; reflexivity].
  intros B. rewrite (resign_rule_exact votes (round_of_wf _ _ W)).
  unfold PyFloat.tie_numerator. lia.
Qed.

(** * The ledger invariant *)

(** Every method that writes the ledger keeps its rounds well formed, so
    [ledger_wf] holds in every state the bot reaches from an empty
    ledger. *)
Lemma ledger_wf_empty b : game_move_votes b = [] -> ledger_wf b.
Proof. intros E g v. rewrite E. discriminate. Qed.

Lemma vote_for_resign_wf game_id b :
  ledger_wf b -> ledger_wf (snd (vote_for_resign game_id b)).
Proof. intros W. now apply add_vote_wf. Qed.

Lemma vote_for_move_wf SAN_REGEX_match parse_san game_id move b :
  ledger_wf b ->
  ledger_wf (snd (vote_for_move SAN_REGEX_match parse_san game_id move b)).
Proof.
  intros W. unfold vote_for_move. destruct (negb _); auto.
  destruct (vote_key _ _ _ _); auto. now apply add_vote_wf.
Qed.

Lemma update_ongoing_games_wf fetch b :
  ledger_wf b -> ledger_wf (update_ongoing_games fetch b).
Proof. intros W. now destruct fetch. Qed.

Lemma set_user_as_already_voted_bot_chess game_id user h :
  bot_chess (set_user_as_already_voted game_id user h) = bot_chess h.
Proof. reflexivity. Qed.

Lemma treat_command_wf command msg h :
  ledger_wf (bot_chess h) -> ledger_wf (bot_chess (treat_command command msg h)).
Proof.
  intros W. unfold treat_command.
  destruct (PyDict.mem command "!resign").
  - destruct (get_game_ids h) as [|game_id rest]; auto.
    cbn [vote_for_resign]. rewrite Tauto.if_same.
    rewrite set_user_as_already_voted_bot_chess. cbn [bot_chess set_bot_chess].
    now apply add_vote_wf.
  - now rewrite Tauto.if_same.
Qed.

Lemma treat_move_msg_wf SAN_REGEX_match parse_san move msg h :
  ledger_wf (bot_chess h) ->
  ledger_wf (bot_chess (treat_move_msg SAN_REGEX_match parse_san move msg h)).
Proof.
  intros W. unfold treat_move_msg.
  destruct (get_game_ids h) as [|game_id rest]; auto.
  destruct (get_has_user_already_voted _ _ _); auto.
  pose proof (vote_for_move_wf SAN_REGEX_match parse_san game_id move _ W) as W'.
  destruct (vote_for_move _ _ _ _ _) as [ret b]. cbn [snd] in W'.
  destruct ret; [rewrite set_user_as_already_voted_bot_chess|]; exact W'.
Qed.

Lemma thread_twitch_chat_message_wf SAN_REGEX_match parse_san msg h h' :
  ledger_wf (bot_chess h) ->
  thread_twitch_chat_message SAN_REGEX_match parse_san msg h = Value h' ->
  ledger_wf (bot_chess h').
Proof.
  intros W. unfold thread_twitch_chat_message, bind.
  destruct (get_command_from_msg (message msg)) as [[command|]|e]; [| |discriminate].
  - intros [= <-]. now apply treat_command_wf.
  - destruct (get_move_from_msg _ _); intros [= <-]; auto.
    now apply treat_move_msg_wf.
Qed.

(** * Witnesses *)

Lemma example_bot_wf votes voted :
  round_wf votes -> ledger_wf (bot_chess (example_bot [("g1", votes)] voted)).
Proof.
  intros W g v. unfold example_bot, bot_chess, game_move_votes.
  cbn [PyDict.get]. change (key_eqb "g1" g) with (String.eqb "g1" g).
  destruct (String.eqb "g1" g); [|discriminate].
  now intros [= <-].
Qed.

Lemma example_round_wf : round_wf example_round.
Proof.
  split.
  - repeat constructor; cbn; intuition discriminate.
  - repeat constructor; cbn; lia.
Qed.

Lemma resigning_round_wf : round_wf resigning_round.
Proof.
  split.
  - repeat constructor; cbn; intuition discriminate.
  - repeat constructor; cbn; lia.
Qed.

Lemma make_move_outcome_updates_round_witness :
  ledger_wf (bot_chess example_h)
  /\ In (make_move_call "g1" (CStr "e2e4"))
        (snd (fst (thread_make_move_handler_body false "g1" example_h)))
  /\ forall user,
       get_has_user_already_voted "g1" user
         (snd (thread_make_move_handler_body false "g1" example_h)) = false.
Proof.
  assert (W : ledger_wf (bot_chess example_h))
    by exact (example_bot_wf _ _ example_round_wf).
  assert (I : In (make_move_call "g1" (CStr "e2e4"))
                (snd (fst (thread_make_move_handler_body false "g1" example_h))))
    by (vm_compute; left; reflexivity).
  split; [exact W|]. split; [exact I|].
  exact (proj1 (make_move_outcome_updates_round false "g1" example_h (CStr "e2e4") W I)).
Defined.

Lemma anarchy_submits_first_non_resign_witness :
  fst (thread_make_move_handler_body true "g1" example_h)
  = (loop_next, [make_move_call "g1" (CStr "e2e4")]).
Proof.
  exact (anarchy_submits_first_non_resign true "g1" example_h example_round
           eq_refl eq_refl eq_refl
           (fun E => match E in _ = l return match l with [] => False | _ => True end
                     with eq_refl => I end)
           (proj1 example_round_wf)).
Defined.

(** C5 (counterexample). With one vote to resign and nine for e2e4 the
    rule fires, and the same cycle also submits e2e4. *)
Lemma resign_rule_does_not_end_cycle :
  resign_rule resigning_round (PyDict.keys resigning_round) = true
  /\ snd (fst (thread_make_move_handler_body true "g1" resigning_h))
     = [resign_game_call "g1"; make_move_call "g1" (CStr "e2e4")].
Proof. split; vm_compute; reflexivity. Qed.

Lemma resign_rule_then_selection_witness :
  resign_rule resigning_round (PyDict.keys resigning_round) = true
  /\ snd (fst (thread_make_move_handler_body false "g1" resigning_h))
     = [resign_game_call "g1"; make_move_call "g1" (CStr "e2e4")].
Proof.
  assert (R : resign_rule resigning_round (PyDict.keys resigning_round) = true)
    by (vm_compute; reflexivity).
  split; [exact R|].
  exact (resign_rule_then_selection false "g1" resigning_h resigning_round
           eq_refl eq_refl (proj1 resigning_round_wf) R).
Defined.

Lemma resignation_iff_tenth_of_votes_witness :
  PyDict.mem (ongoing_games (bot_chess resigning_h)) "g1" = true
  /\ ledger_wf (bot_chess resigning_h)
  /\ (resigns true "g1" resigning_h
      <-> 1 <= round_total (round_of (game_move_votes (bot_chess resigning_h)) "g1")
          /\ PyFloat.ge
               (PyFloat.int_truediv
                  (resign_votes_of (round_of (game_move_votes (bot_chess resigning_h)) "g1"))
                  (round_total (round_of (game_move_votes (bot_chess resigning_h)) "g1")))
               PyFloat.lit_0_1 = true).
Proof.
  assert (W : ledger_wf (bot_chess resigning_h))
    by exact (example_bot_wf _ _ resigning_round_wf).
  split; [reflexivity|]. split; [exact W|].
  exact (proj1 (resignation_iff_tenth_of_votes true "g1" resigning_h eq_refl W)).
Defined.

(** * Further properties: the vote ledger *)

Lemma count_of_cons_eq (votes : dict candidate Z) k v :
  count_of ((k, v) :: votes) k = v.
Proof. unfold count_of. cbn. now rewrite (proj2 (candidate_eqb_eq k k) eq_refl). Qed.

Lemma count_of_cons_ne (votes : dict candidate Z) k v k' :
  k <> k' -> count_of ((k, v) :: votes) k' = count_of votes k'.
Proof.
  intros N. unfold count_of. cbn.
  destruct (candidate_eqb k k') eqn:E; auto.
  apply candidate_eqb_eq in E. contradiction.
Qed.

Lemma round_total_sum_counts (votes : dict candidate Z) :
  PyDict.wf votes -> round_total votes = sum_counts votes.
Proof.
  unfold round_total, total_votes, sum_counts, PyDict.wf, PyDict.keys.
  induction votes as [|[k v] votes IH]; intros W; auto.
  inversion W as [|? ? N W']; subst. cbn [map fold_left fst snd].
  rewrite count_of_cons_eq.
  rewrite (fold_left_add_acc (map snd votes)).
  rewrite (fold_left_add_acc (map _ (map fst votes))).
  rewrite <- (IH W'). do 2 f_equal.
  apply map_ext_in. intros k' I. apply count_of_cons_ne.
  intros ->. contradiction.
Qed.

Lemma sum_counts_set (votes : dict candidate Z) k n :
  sum_counts (PyDict.set votes k n) = sum_counts votes - count_of votes k + n.
Proof.
  unfold sum_counts. induction votes as [|[k' v'] votes IH].
  - cbn. unfold count_of. cbn. lia.
  - cbn [PyDict.set]. change (key_eqb k' k) with (candidate_eqb k' k).
    destruct (candidate_eqb k' k) eqn:E.
    + apply candidate_eqb_eq in E. subst k'. rewrite count_of_cons_eq.
      cbn [map fold_left snd].
      rewrite (fold_left_add_acc _ (0 + n)), (fold_left_add_acc _ (0 + v')). lia.
    + assert (N : k' <> k) by (intros ->; rewrite (proj2 (candidate_eqb_eq k k) eq_refl) in E; discriminate).
      rewrite (count_of_cons_ne _ _ _ _ N). cbn [map fold_left snd].
      rewrite (fold_left_add_acc _ (0 + v')).
      rewrite (fold_left_add_acc (map snd votes) (0 + v')). lia.
Qed.

Lemma add_vote_sum_counts all game_id key :
  sum_counts (round_of (add_vote all game_id key) game_id)
  = sum_counts (round_of all game_id) + 1.
Proof.
  rewrite add_vote_round. cbv zeta. rewrite sum_counts_set.
  unfold PyDict.mem.
  destruct (PyDict.get (round_of all game_id) key) eqn:G; [lia|].
  rewrite sum_counts_set.
  assert (Z0 : count_of (round_of all game_id) key = 0)
    by (unfold count_of; now rewrite G).
  lia.
Qed.

Section TallyFacts.
Variable SAN_REGEX_match : string -> bool.
Variable parse_san : Board -> string -> option Move.

Local Abbreviation cast_vote := (cast_vote SAN_REGEX_match parse_san).
Local Abbreviation cast_votes := (cast_votes SAN_REGEX_match parse_san).
Local Abbreviation accepted := (accepted SAN_REGEX_match parse_san).
Local Abbreviation counts_for := (counts_for SAN_REGEX_match parse_san).

(** What one call does to the ledger. *)
Lemma cast_vote_ledger game_id r b :
  snd (cast_vote game_id r b)
  = if accepted game_id b r then
      set_game_move_votes b
        (add_vote (game_move_votes b) game_id
           (match r with
            | resign_request => CStr RESIGN_MOVE_STR
            | move_request move =>
                match vote_key parse_san game_id move b with
                | Some key => key
                | None => CStr move
                end
            end))
    else b.
Proof.
  unfold accepted. destruct r as [|move]; cbn; auto.
  unfold vote_for_move. destruct (negb _); cbn; auto.
  destruct (vote_key parse_san game_id move b); cbn; auto.
Qed.

Lemma cast_vote_ongoing game_id r b :
  ongoing_games (snd (cast_vote game_id r b)) = ongoing_games b.
Proof. rewrite cast_vote_ledger. now destruct (accepted _ _ _). Qed.

Lemma vote_key_ongoing game_id move b b' :
  ongoing_games b = ongoing_games b' ->
  vote_key parse_san game_id move b = vote_key parse_san game_id move b'.
Proof. intros E. unfold vote_key, get_board_from_game. now rewrite E. Qed.

Lemma counts_for_ongoing c game_id r b b' :
  ongoing_games b = ongoing_games b' ->
  counts_for c game_id b r = counts_for c game_id b' r.
Proof.
  intros E. destruct r as [|move]; cbn; auto.
  now rewrite (vote_key_ongoing game_id move b b' E).
Qed.

Lemma accepted_ongoing game_id r b b' :
  ongoing_games b = ongoing_games b' ->
  accepted game_id b r = accepted game_id b' r.
Proof.
  intros E. unfold accepted. destruct r as [|move]; cbn; auto.
  unfold vote_for_move. destruct (negb _); cbn; auto.
  rewrite (vote_key_ongoing game_id move b b' E).
  now destruct (vote_key parse_san game_id move b').
Qed.

Lemma cast_vote_count c game_id r b :
  count_of (round_of (game_move_votes (snd (cast_vote game_id r b))) game_id) c
  = count_of (round_of (game_move_votes b) game_id) c
    + (if counts_for c game_id b r then 1 else 0).
Proof.
  assert (A : forall key,
    count_of (round_of (add_vote (game_move_votes b) game_id key) game_id) c
    = count_of (round_of (game_move_votes b) game_id) c
      + (if key_eqb key c then 1 else 0)).
  { intros key. destruct (key_eqb key c) eqn:E.
    - apply key_eqb_spec in E. subst. apply add_vote_count.
    - apply key_eqb_false in E. unfold count_of.
      rewrite (add_vote_count_other _ _ _ _ E). lia. }
  destruct r as [|move]; cbn.
  - apply A.
  - unfold vote_for_move. destruct (get_is_move_fmt_valid _ move); cbn; [|lia].
    destruct (vote_key parse_san game_id move b); cbn; [apply A | lia].
Qed.

Lemma cast_vote_other game_id r b other :
  game_id <> other ->
  PyDict.get (game_move_votes (snd (cast_vote game_id r b))) other
  = PyDict.get (game_move_votes b) other.
Proof.
  intros N. rewrite cast_vote_ledger. destruct (accepted _ _ _); auto.
  cbn. now apply add_vote_other.
Qed.

Lemma cast_vote_sum game_id r b :
  sum_counts (round_of (game_move_votes (snd (cast_vote game_id r b))) game_id)
  = sum_counts (round_of (game_move_votes b) game_id)
    + (if accepted game_id b r then 1 else 0).
Proof.
  rewrite cast_vote_ledger. destruct (accepted _ _ _); [|lia].
  cbn. apply add_vote_sum_counts.
Qed.

Lemma cast_vote_wf game_id r b :
  ledger_wf b -> ledger_wf (snd (cast_vote game_id r b)).
Proof.
  intros W. rewrite cast_vote_ledger. destruct (accepted _ _ _); auto.
  now apply add_vote_wf.
Qed.

Lemma cast_votes_wf game_id rs : forall b,
  ledger_wf b -> ledger_wf (cast_votes game_id rs b).
Proof.
  induction rs as [|r rs IH]; intros b W; cbn; auto.
  apply IH. now apply cast_vote_wf.
Qed.

(** X1. After any sequence of calls of [vote_for_move] and
    [vote_for_resign] for a game, the count of every candidate is its
    count before plus the number of calls that returned [True] for that
    candidate; refused calls add nothing, and the rounds of the other
    games are as before. *)
Theorem votes_are_tallied c game_id rs : forall b,
  count_of (round_of (game_move_votes (cast_votes game_id rs b)) game_id) c
  = count_of (round_of (game_move_votes b) game_id) c
    + Z.of_nat (List.length (filter (counts_for c game_id b) rs))
  /\ forall other, game_id <> other ->
       PyDict.get (game_move_votes (cast_votes game_id rs b)) other
       = PyDict.get (game_move_votes b) other.
Proof.
  induction rs as [|r rs IH]; intros b.
  - cbn. split; [lia | auto].
  - cbn [filter].
    change (cast_votes game_id (r :: rs) b)
      with (cast_votes game_id rs (snd (cast_vote game_id r b))).
    destruct (IH (snd (cast_vote game_id r b))) as [C O]. split.
    + rewrite C, cast_vote_count.
      rewrite (filter_ext _ _ (fun x => counts_for_ongoing c game_id x _ _
                 (cast_vote_ongoing game_id r b))).
      destruct (counts_for c game_id b r); cbn [List.length]; lia.
    + intros other N. rewrite (O other N). now apply cast_vote_other.
Qed.

(** X2. On a well-formed ledger, the total that the arbiter computes for
    a round grows by exactly the number of accepted votes: every
    accepted call adds one to the total, whatever its candidate. *)
Theorem total_counts_accepted_votes game_id rs : forall b,
  ledger_wf b ->
  round_total (round_of (game_move_votes (cast_votes game_id rs b)) game_id)
  = round_total (round_of (game_move_votes b) game_id)
    + Z.of_nat (List.length (filter (accepted game_id b) rs)).
Proof.
  induction rs as [|r rs IH]; intros b W.
  - cbn. lia.
  - change (cast_votes game_id (r :: rs) b)
      with (cast_votes game_id rs (snd (cast_vote game_id r b))).
    rewrite (IH _ (cast_vote_wf game_id r b W)). cbn [filter].
    rewrite (filter_ext _ _ (fun x => accepted_ongoing game_id x _ _
               (cast_vote_ongoing game_id r b))).
    rewrite !round_total_sum_counts
      by (apply round_of_wf; auto using cast_vote_wf).
    rewrite cast_vote_sum.
    destruct (accepted game_id b r); cbn [List.length]; lia.
Qed.

End TallyFacts.

(** * Further properties: the resignation rule *)

Lemma vote_for_resign_round game_id b :
  resign_votes_of (round_of (game_move_votes (snd (vote_for_resign game_id b))) game_id)
  = resign_votes_of (round_of (game_move_votes b) game_id) + 1
  /\ sum_counts (round_of (game_move_votes (snd (vote_for_resign game_id b))) game_id)
     = sum_counts (round_of (game_move_votes b) game_id) + 1.
Proof.
  split; cbn; [apply add_vote_count | apply add_vote_sum_counts].
Qed.

(** X3. One more vote to resign never turns the rule off: if the round of
    a game makes the arbiter resign, it still does after [vote_for_resign]
    (the binary64 comparison is monotone here). *)
Theorem resign_vote_keeps_rule_firing game_id b :
  ledger_wf b ->
  resign_rule (round_of (game_move_votes b) game_id)
    (PyDict.keys (round_of (game_move_votes b) game_id)) = true ->
  resign_rule (round_of (game_move_votes (snd (vote_for_resign game_id b))) game_id)
    (PyDict.keys (round_of (game_move_votes (snd (vote_for_resign game_id b))) game_id))
  = true.
Proof.
  intros W R.
  assert (W' : ledger_wf (snd (vote_for_resign game_id b)))
    by now apply vote_for_resign_wf.
  pose proof (round_of_wf _ game_id W) as W1.
  pose proof (round_of_wf _ game_id W') as W2.
  apply (resign_rule_exact _ W1) in R. apply (resign_rule_exact _ W2).
  destruct (vote_for_resign_round game_id b) as [E1 E2].
  rewrite (round_total_sum_counts _ (proj1 W2)), E1, E2.
  rewrite (round_total_sum_counts _ (proj1 W1)) in R.
  unfold PyFloat.tie_numerator in *. lia.
Qed.

Lemma resign_alone_rule votes :
  round_wf votes -> PyDict.keys votes = [CStr RESIGN_MOVE_STR] ->
  resign_rule votes (PyDict.keys votes) = true.
Proof.
  intros W E. apply (resign_rule_exact _ W).
  assert (P : 0 < count_of votes (CStr RESIGN_MOVE_STR))
    by (apply count_of_pos; [exact W | rewrite E; now left]).
  unfold round_total, resign_votes_of, total_votes. rewrite E. cbn [map fold_left].
  unfold PyFloat.tie_numerator. lia.
Qed.

(** X4. While the resignation token is the only candidate of a round, in
    anarchy mode, every iteration of the arbiter calls [resign_game] again
    and leaves the round and the voted users as they are: the loop on its
    own never gets out of this state. *)
Theorem resign_alone_resigns_every_cycle game_id h votes answers :
  String.eqb (mode (bot_chess h)) "anarchy" = true ->
  PyDict.mem (ongoing_games (bot_chess h)) game_id = true ->
  PyDict.get (game_move_votes (bot_chess h)) game_id = Some votes ->
  round_wf votes ->
  PyDict.keys votes = [CStr RESIGN_MOVE_STR] ->
  thread_make_move_handler answers game_id h
  = (repeat (resign_game_call game_id) (List.length answers), h).
Proof.
  intros M O G W E.
  assert (NE : votes <> []) by (intros ->; discriminate).
  assert (B : forall ret, thread_make_move_handler_body ret game_id h
                          = (loop_continue, [resign_game_call game_id], h)).
  { intros ret. rewrite (body_on_round ret game_id h votes O G NE), M.
    rewrite E. cbn [anarchy_move].
    change (key_eqb (CStr RESIGN_MOVE_STR) (CStr RESIGN_MOVE_STR)) with true.
    cbv iota.
    unfold resigned_calls.
    now rewrite (resign_alone_rule votes W E). }
  induction answers as [|ret answers IH]; cbn [thread_make_move_handler]; auto.
  rewrite B, IH. reflexivity.
Qed.

(** * Further properties: the move arbiter *)

Lemma body_without_votes ret game_id h :
  PyDict.mem (ongoing_games (bot_chess h)) game_id = true ->
  round_of (game_move_votes (bot_chess h)) game_id = [] ->
  thread_make_move_handler_body ret game_id h = (loop_continue, [], h).
Proof.
  intros O R. unfold thread_make_move_handler_body, round_of in *. rewrite O.
  destruct (PyDict.get (game_move_votes (bot_chess h)) game_id); [subst|]; reflexivity.
Qed.

(** X5. An arbiter whose game is ongoing and has no vote (no round yet, or
    an empty one) does nothing, however long it runs alone: no call to the
    server, and the state is untouched. *)
Theorem arbiter_idle_without_votes answers game_id h :
  PyDict.mem (ongoing_games (bot_chess h)) game_id = true ->
  round_of (game_move_votes (bot_chess h)) game_id = [] ->
  thread_make_move_handler answers game_id h = ([], h).
Proof.
  intros O R. induction answers as [|ret answers IH]; cbn [thread_make_move_handler]; auto.
  rewrite (body_without_votes ret game_id h O R), IH. reflexivity.
Qed.

Lemma reset_frame game_id h :
  game_ids (reset_users_voted_moves game_id h) = game_ids h.
Proof. unfold reset_users_voted_moves. now destruct (negb _). Qed.

Lemma resigned_calls_of_game game_id votes c :
  In c (resigned_calls game_id votes) -> call_of_game game_id c.
Proof.
  unfold resigned_calls. destruct (resign_rule _ _); cbn; [|tauto].
  intros [<-|[]]. now left.
Qed.

(** X6. Whatever an iteration of the arbiter of a game does, it leaves the
    rounds and the voted users of every other game, the registry, the mode
    and the chat's copy of the game ids as they were, and every call it
    sends is for its own game. *)
Theorem arbiter_touches_only_its_game ret game_id h :
  (forall other, game_id <> other ->
     PyDict.get (game_move_votes (bot_chess (snd (thread_make_move_handler_body ret game_id h)))) other
     = PyDict.get (game_move_votes (bot_chess h)) other
     /\ PyDict.get (users_already_voted (snd (thread_make_move_handler_body ret game_id h))) other
        = PyDict.get (users_already_voted h) other)
  /\ ongoing_games (bot_chess (snd (thread_make_move_handler_body ret game_id h)))
     = ongoing_games (bot_chess h)
  /\ mode (bot_chess (snd (thread_make_move_handler_body ret game_id h)))
     = mode (bot_chess h)
  /\ game_ids (snd (thread_make_move_handler_body ret game_id h)) = game_ids h
  /\ forall c, In c (snd (fst (thread_make_move_handler_body ret game_id h))) ->
       call_of_game game_id c.
Proof.
  destruct (PyDict.mem (ongoing_games (bot_chess h)) game_id) eqn:O.
  2:{ unfold thread_make_move_handler_body. rewrite O. cbn. repeat split; auto.
      intros c []. }
  destruct (round_of (game_move_votes (bot_chess h)) game_id) as [|kv r] eqn:R.
  { rewrite (body_without_votes ret game_id h O R). cbn. repeat split; auto.
    intros c []. }
  assert (G : exists votes, PyDict.get (game_move_votes (bot_chess h)) game_id = Some votes
                            /\ votes <> []).
  { unfold round_of in R. destruct (PyDict.get _ game_id) as [v|]; [|discriminate].
    exists v. split; auto. rewrite R. discriminate. }
  destruct G as (votes & G & NE).
  rewrite (body_on_round ret game_id h votes O G NE).
  destruct (String.eqb (mode (bot_chess h)) "anarchy").
  - destruct (anarchy_move (PyDict.keys votes)) as [move|]; cbn [fst snd].
    + rewrite reset_bot_chess, reset_frame. cbn. repeat split; auto.
      * now apply get_set_ne.
      * now rewrite reset_other_game.
      * intros c I. apply in_app_iff in I. destruct I as [I|[<-|[]]].
        -- now apply resigned_calls_of_game in I.
        -- right. now exists move.
    + repeat split; auto. apply resigned_calls_of_game.
  - cbn [fst snd]. rewrite reset_bot_chess, reset_frame. repeat split; auto.
    + now apply reset_other_game.
    + apply resigned_calls_of_game.
Qed.

Lemma submitted_moves_app a b :
  submitted_moves (a ++ b) = submitted_moves a ++ submitted_moves b.
Proof. apply flat_map_app. Qed.

Lemma submitted_moves_resigned game_id votes :
  submitted_moves (resigned_calls game_id votes) = [].
Proof. unfold resigned_calls. now destruct (resign_rule _ _). Qed.

Lemma non_resign_del (votes : dict candidate Z) m :
  PyDict.wf votes ->
  first_non_resign (PyDict.keys votes) = Some m ->
  non_resign (PyDict.keys votes) = m :: non_resign (PyDict.keys (PyDict.del votes m)).
Proof.
  unfold PyDict.wf, first_non_resign, non_resign, PyDict.keys.
  induction votes as [|[k v] votes IH]; cbn [map fst find filter PyDict.del];
    [discriminate|].
  intros N F. inversion N as [|? ? NI N']; subst.
  destruct (negb (key_eqb k (CStr RESIGN_MOVE_STR))) eqn:E.
  - injection F as ->. now rewrite key_eqb_refl.
  - assert (K : key_eqb k m = false).
    { apply key_eqb_neq. intros ->. apply find_some in F. destruct F as [_ F].
      rewrite F in E. discriminate. }
    rewrite K. cbn [map fst filter]. rewrite E. now apply IH.
Qed.

Lemma non_resign_alone (moves : list candidate) :
  first_non_resign moves = None -> non_resign moves = [].
Proof.
  unfold first_non_resign, non_resign.
  induction moves as [|k l IH]; cbn; auto.
  destruct (negb _); [discriminate | auto].
Qed.

(** X7. If the server rejects every move, an arbiter running alone in
    anarchy mode submits the candidates that are not the resignation
    token one per iteration, in the order in which they were first voted,
    each of them once. *)
Theorem rejected_moves_tried_in_voting_order n game_id : forall h,
  String.eqb (mode (bot_chess h)) "anarchy" = true ->
  PyDict.mem (ongoing_games (bot_chess h)) game_id = true ->
  ledger_wf (bot_chess h) ->
  submitted_moves (fst (thread_make_move_handler (repeat false n) game_id h))
  = firstn n (non_resign (PyDict.keys (round_of (game_move_votes (bot_chess h)) game_id))).
Proof.
  induction n as [|n IH]; intros h M O W; [reflexivity|].
  cbn [repeat thread_make_move_handler].
  destruct (round_of (game_move_votes (bot_chess h)) game_id) as [|kv r] eqn:R.
  { rewrite (body_without_votes false game_id h O R).
    specialize (IH h M O W). rewrite R in IH.
    destruct (thread_make_move_handler (repeat false n) game_id h) as [calls h'].
    cbn in *. rewrite IH. now destruct n. }
  assert (G : exists votes, PyDict.get (game_move_votes (bot_chess h)) game_id = Some votes
                            /\ votes <> [] /\ votes = kv :: r).
  { unfold round_of in R. destruct (PyDict.get _ game_id) as [v|]; [|discriminate].
    exists v. repeat split; auto. rewrite R. discriminate. }
  destruct G as (votes & G & NE & EV). rewrite <- EV.
  assert (Wv : PyDict.wf votes) by (apply (W game_id votes G)).
  rewrite (body_on_round false game_id h votes O G NE), M.
  rewrite (anarchy_move_first_non_resign _ Wv).
  destruct (first_non_resign (PyDict.keys votes)) as [move|] eqn:F.
  - set (h' := reset_users_voted_moves game_id _).
    assert (M' : String.eqb (mode (bot_chess h')) "anarchy" = true)
      by (unfold h'; rewrite reset_bot_chess; exact M).
    assert (O' : PyDict.mem (ongoing_games (bot_chess h')) game_id = true)
      by (unfold h'; rewrite reset_bot_chess; exact O).
    assert (R' : round_of (game_move_votes (bot_chess h')) game_id = PyDict.del votes move).
    { unfold h', round_of. rewrite reset_bot_chess. cbn. now rewrite get_set_eq. }
    assert (W' : ledger_wf (bot_chess h')).
    { pose proof (thread_make_move_handler_body_wf false game_id h W) as X.
      rewrite (body_on_round false game_id h votes O G NE), M in X.
      rewrite (anarchy_move_first_non_resign _ Wv), F in X. exact X. }
    specialize (IH h' M' O' W'). rewrite R' in IH.
    destruct (thread_make_move_handler (repeat false n) game_id h') as [calls h''].
    cbn [fst] in *.
    rewrite !submitted_moves_app, submitted_moves_resigned, IH.
    rewrite (non_resign_del votes move Wv F). reflexivity.
  - specialize (IH h M O W). unfold round_of in IH. rewrite G in IH.
    destruct (thread_make_move_handler (repeat false n) game_id h) as [calls h'].
    cbn [fst] in *.
    rewrite submitted_moves_app, submitted_moves_resigned, IH.
    rewrite (non_resign_alone _ F). now destruct n.
Qed.

Lemma In_users_iff x l : In_users x l = true <-> In x l.
Proof.
  unfold In_users. rewrite existsb_exists. split.
  - intros (y & I & E). apply String.eqb_eq in E. now subst.
  - intros I. exists x. split; auto. apply String.eqb_refl.
Qed.

Lemma In_list_remove x y l : In y (list_remove x l) -> In y l.
Proof.
  induction l as [|z l IH]; cbn; auto.
  destruct (String.eqb z x); cbn; tauto.
Qed.

Lemma NoDup_list_remove x l : NoDup l -> NoDup (list_remove x l).
Proof.
  induction l as [|z l IH]; cbn; auto.
  intros N. inversion N as [|? ? NI N']; subst.
  destruct (String.eqb z x); auto.
  constructor; auto. intros I. apply NI. now apply In_list_remove in I.
Qed.

Lemma list_remove_spec x l :
  NoDup l -> forall y, In y (list_remove x l) <-> In y l /\ y <> x.
Proof.
  induction l as [|z l IH]; cbn; [tauto|].
  intros N y. inversion N as [|? ? NI N']; subst.
  destruct (String.eqb z x) eqn:E.
  - apply String.eqb_eq in E. subst z. split.
    + intros I. split; auto. intros ->. contradiction.
    + intros [[->|I] Ne]; [congruence | auto].
  - apply String.eqb_neq in E. cbn. rewrite (IH N' y). split.
    + intros [->|[I Ne]]; auto.
    + intros [[->|I] Ne]; auto.
Qed.

(** X8. When the game of a running arbiter is no longer in the registry,
    the iteration ends the loop without any call, takes exactly this game
    out of the list of running arbiters and changes nothing else; the id
    can then be started again by the games handler. *)
Theorem arbiter_exit_unregisters_its_game ret game_id h :
  PyDict.mem (ongoing_games (bot_chess h)) game_id = false ->
  In game_id (thread_games (bot_chess h)) ->
  NoDup (thread_games (bot_chess h)) ->
  fst (thread_make_move_handler_body ret game_id h) = (loop_break, [])
  /\ (forall g, In g (thread_games (bot_chess (snd (thread_make_move_handler_body ret game_id h))))
                <-> In g (thread_games (bot_chess h)) /\ g <> game_id)
  /\ game_move_votes (bot_chess (snd (thread_make_move_handler_body ret game_id h)))
     = game_move_votes (bot_chess h)
  /\ users_already_voted (snd (thread_make_move_handler_body ret game_id h))
     = users_already_voted h.
Proof.
  intros O _ N. unfold thread_make_move_handler_body. rewrite O. cbn.
  split; [reflexivity|]. split; [intros g; now apply list_remove_spec|].
  split; reflexivity.
Qed.

(** * Further properties: the games handler *)

Section GamesHandlerFacts.
Variable get_by_id : string -> string -> option bool.

Lemma offline_resign_threads game_id b t :
  offline_resign get_by_id game_id (set_thread_games b t)
  = offline_resign get_by_id game_id b.
Proof. reflexivity. Qed.

Lemma offline_resign_ongoing game_id b b' :
  ongoing_games b = ongoing_games b' ->
  offline_resign get_by_id game_id b = offline_resign get_by_id game_id b'.
Proof. intros E. unfold offline_resign. now rewrite E. Qed.

(** What the loop over the ids does, from any state. *)
Lemma games_handler_for_spec ids : forall b,
  thread_games (snd (games_handler_for get_by_id ids b))
  = thread_games b ++ fst (fst (games_handler_for get_by_id ids b))
  /\ ongoing_games (snd (games_handler_for get_by_id ids b)) = ongoing_games b
  /\ game_move_votes (snd (games_handler_for get_by_id ids b)) = game_move_votes b
  /\ mode (snd (games_handler_for get_by_id ids b)) = mode b
  /\ snd (fst (games_handler_for get_by_id ids b))
     = flat_map (fun g => offline_resign get_by_id g b) ids
  /\ (forall g, In g (fst (fst (games_handler_for get_by_id ids b)))
                <-> In g ids /\ ~ In g (thread_games b))
  /\ (NoDup (thread_games b) ->
      NoDup (thread_games (snd (games_handler_for get_by_id ids b)))).
Proof.
  induction ids as [|game_id ids IH]; intros b.
  - cbn. rewrite app_nil_r. repeat split; auto; try tauto.
  - cbn [games_handler_for].
    destruct (In_users game_id (thread_games b)) eqn:I; cbn [negb].
    + apply In_users_iff in I.
      destruct (IH b) as (T & O & V & M & C & S & N).
      destruct (games_handler_for get_by_id ids b) as [[started calls] b'].
      cbn [fst snd flat_map app] in *.
      split; [exact T|]. split; [exact O|]. split; [exact V|].
      split; [exact M|]. split; [now rewrite C|]. split; [|exact N].
      intros g. rewrite S. split.
      * intros [J NJ]. split; [now right | exact NJ].
      * intros [[<-|J] NJ]; [contradiction | now split].
    + assert (NI : ~ In game_id (thread_games b)).
      { intros J. apply In_users_iff in J. congruence. }
      set (b1 := set_thread_games b (thread_games b ++ [game_id])).
      destruct (IH b1) as (T & O & V & M & C & S & N).
      destruct (games_handler_for get_by_id ids b1) as [[started calls] b'].
      cbn [fst snd flat_map app] in *.
      assert (T1 : thread_games b1 = thread_games b ++ [game_id]) by reflexivity.
      split; [rewrite T, T1; now rewrite <- app_assoc|].
      split; [exact O|]. split; [exact V|]. split; [exact M|].
      split; [rewrite C; reflexivity|]. split.
      * intros g. cbn [In]. rewrite S, T1, in_app_iff. cbn [In]. split.
        -- intros [<-|[J NJ]]; [split; [now left | exact NI]|].
           split; [now right | tauto].
        -- intros [[<-|J] NJ]; [now left|].
           destruct (string_dec game_id g) as [<-|D]; [now left|]. right.
           split; [exact J | tauto].
      * intros ND. apply N. rewrite T1.
        apply NoDup_app; auto.
        -- constructor; [intros [] | constructor].
        -- intros x Ix [<-|[]]. contradiction.
Qed.

(** X9. After an iteration of the games handler every ongoing game has an
    arbiter in the list of running arbiters; an arbiter is started exactly
    for the ongoing games that had none, so no game has two; the registry,
    the votes and the mode are not touched. *)
Theorem games_handler_starts_missing_arbiters b :
  NoDup (thread_games b) ->
  thread_games (snd (thread_games_handler_body get_by_id b))
  = thread_games b ++ fst (fst (thread_games_handler_body get_by_id b))
  /\ (forall g, In g (fst (fst (thread_games_handler_body get_by_id b)))
                <-> In g (get_ongoing_game_ids b) /\ ~ In g (thread_games b))
  /\ (forall g, In g (get_ongoing_game_ids b) ->
                In g (thread_games (snd (thread_games_handler_body get_by_id b))))
  /\ NoDup (thread_games (snd (thread_games_handler_body get_by_id b)))
  /\ ongoing_games (snd (thread_games_handler_body get_by_id b)) = ongoing_games b
  /\ game_move_votes (snd (thread_games_handler_body get_by_id b)) = game_move_votes b.
Proof.
  intros ND. unfold thread_games_handler_body, get_ongoing_game_ids.
  destruct (games_handler_for_spec (PyDict.keys (ongoing_games b)) b)
    as (T & O & V & M & C & S & N).
  split; [exact T|]. split; [exact S|]. split; [|split; [now apply N|now split]].
  intros g I. rewrite T, in_app_iff.
  destruct (in_dec string_dec g (thread_games b)) as [K|K]; [now left|].
  right. apply S. tauto.
Qed.

Lemma offline_resign_spec game_id b c :
  In c (offline_resign get_by_id game_id b)
  <-> exists game player_id,
        c = resign_game_call game_id
        /\ PyDict.get (ongoing_games b) game_id = Some game
        /\ opponent game = Some player_id
        /\ get_by_id game_id player_id = Some false.
Proof.
  unfold offline_resign.
  destruct (PyDict.get (ongoing_games b) game_id) as [game|].
  2:{ split; [intros [] | intros (g & p & _ & X & _); discriminate]. }
  destruct (opponent game) as [p|] eqn:P.
  2:{ split; [intros [] | intros (g & q & _ & [= <-] & X & _); congruence]. }
  destruct (get_by_id game_id p) as [[|]|] eqn:Q.
  - split; [intros [] | intros (g & q & _ & [= <-] & X & Y); congruence].
  - split.
    + intros [<-|[]]. now exists game, p.
    + intros (g & q & -> & _). now left.
  - split; [intros [] | intros (g & q & _ & [= <-] & X & Y); congruence].
Qed.

(** X10. An iteration of the games handler resigns exactly the ongoing
    games whose opponent is a person reported offline: a game against the
    computer, an opponent reported online and a lookup that fails never
    lead to a resignation, and nothing else is ever sent. *)
Theorem games_handler_resigns_offline_opponents b c :
  In c (snd (fst (thread_games_handler_body get_by_id b)))
  <-> exists game_id game player_id,
        c = resign_game_call game_id
        /\ PyDict.get (ongoing_games b) game_id = Some game
        /\ opponent game = Some player_id
        /\ get_by_id game_id player_id = Some false.
Proof.
  unfold thread_games_handler_body.
  destruct (games_handler_for_spec (PyDict.keys (ongoing_games b)) b)
    as (_ & _ & _ & _ & C & _). rewrite C, in_flat_map. split.
  - intros (g & _ & I). apply offline_resign_spec in I.
    destruct I as (game & p & X). now exists g, game, p.
  - intros (g & game & p & E & G & X). exists g. split.
    + destruct (in_dec string_dec g (PyDict.keys (ongoing_games b))) as [K|K]; auto.
      apply get_None_keys in K. congruence.
    + apply offline_resign_spec. now exists game, p.
Qed.

End GamesHandlerFacts.

(** * Further properties: the game registry *)

Lemma registry_of_keys_order games : forall d,
  NoDup (PyDict.keys d ++ map gameId games) ->
  PyDict.keys (registry_of games d) = PyDict.keys d ++ map gameId games.
Proof.
  induction games as [|g games IH]; intros d N.
  - cbn. now rewrite app_nil_r.
  - change (registry_of (g :: games) d)
      with (registry_of games (PyDict.set d (gameId g) g)).
    assert (M : PyDict.mem d (gameId g) = false).
    { apply mem_false_keys. intros I.
      apply NoDup_remove_2 in N. apply N. apply in_app_iff. now left. }
    pose proof (keys_set_new d (gameId g) g M) as K.
    rewrite IH; rewrite K; cbn [map]; rewrite <- app_assoc; auto.
Qed.

Lemma find_unique_game (l : list Game) g :
  NoDup (map gameId l) -> In g l ->
  find (fun x => String.eqb (gameId x) (gameId g)) l = Some g.
Proof.
  induction l as [|x l IH]; cbn; [tauto|].
  intros N [->|I].
  - now rewrite String.eqb_refl.
  - inversion N as [|? ? NI N']; subst.
    destruct (String.eqb (gameId x) (gameId g)) eqn:E; [|auto].
    apply String.eqb_eq in E. exfalso. apply NI. rewrite E. now apply in_map.
Qed.

(** X11. After a refresh that fetched games with distinct ids, the ids of
    the registry are the fetched ids in the order of the fetch, and the
    readers give back the colour, the turn and the position of every
    fetched game. *)
Theorem refresh_then_read games b :
  NoDup (map gameId games) ->
  get_ongoing_game_ids (update_ongoing_games (Some games) b) = map gameId games
  /\ forall g, In g games ->
       get_color_in_ongoing_game (gameId g) (update_ongoing_games (Some games) b)
       = Some (color g)
       /\ is_my_turn (gameId g) (update_ongoing_games (Some games) b)
          = Some (isMyTurn g)
       /\ get_board_from_game (gameId g) (update_ongoing_games (Some games) b)
          = Some {| board_fen := fen g;
                    board_turn := String.eqb (color g) "white" |}.
Proof.
  intros N. split.
  - apply (registry_of_keys_order games []). exact N.
  - intros g I.
    assert (G : PyDict.get (ongoing_games (update_ongoing_games (Some games) b)) (gameId g)
                = Some g).
    { change (ongoing_games (update_ongoing_games (Some games) b))
        with (registry_of games []).
      rewrite registry_of_get, find_unique_game; auto.
      - rewrite map_rev. now apply NoDup_rev.
      - now apply in_rev in I. }
    unfold get_color_in_ongoing_game, is_my_turn, get_board_from_game.
    now rewrite G.
Qed.

(** X12. The three readers of the registry answer exactly for the ongoing
    ids: for an id that [get_ongoing_game_ids] does not list they all
    return [None], for a listed id they all return a value. *)
Theorem readers_answer_for_ongoing_ids game_id b :
  (~ In game_id (get_ongoing_game_ids b) ->
   is_my_turn game_id b = None
   /\ get_color_in_ongoing_game game_id b = None
   /\ get_board_from_game game_id b = None)
  /\ (In game_id (get_ongoing_game_ids b) ->
      exists game,
        PyDict.get (get_ongoing_games b) game_id = Some game
        /\ is_my_turn game_id b = Some (isMyTurn game)
        /\ get_color_in_ongoing_game game_id b = Some (color game)
        /\ get_board_from_game game_id b
           = Some {| board_fen := fen game;
                     board_turn := String.eqb (color game) "white" |}).
Proof.
  unfold get_ongoing_game_ids, get_ongoing_games, is_my_turn,
    get_color_in_ongoing_game, get_board_from_game. split.
  - intros N. apply get_None_keys in N. now rewrite N.
  - intros I. destruct (PyDict.get (ongoing_games b) game_id) as [game|] eqn:G.
    + now exists game.
    + apply get_None_keys in G. contradiction.
Qed.

(** * Further properties: what every reachable state satisfies *)

Lemma add_vote_outer_wf all game_id key :
  PyDict.wf all -> PyDict.wf (add_vote all game_id key).
Proof.
  intros W. unfold add_vote. cbv zeta. apply wf_set.
  destruct (PyDict.mem all game_id); auto. now apply wf_set.
Qed.

Lemma NoDup_snoc (l : list string) x : NoDup l -> ~ In x l -> NoDup (l ++ [x]).
Proof.
  intros N NI. apply NoDup_app; auto.
  - constructor; [intros [] | constructor].
  - intros y I [<-|[]]. contradiction.
Qed.

Lemma users_wf_set_user game_id user h :
  users_wf (users_already_voted h) ->
  users_wf (users_already_voted (set_user_as_already_voted game_id user h)).
Proof.
  intros [W N]. unfold set_user_as_already_voted. cbv zeta.
  cbn [users_already_voted set_users_already_voted].
  set (all := if PyDict.mem (users_already_voted h) game_id
              then users_already_voted h
              else PyDict.set (users_already_voted h) game_id []).
  assert (Wa : PyDict.wf all).
  { unfold all. destruct (PyDict.mem _ _); auto. now apply wf_set. }
  assert (Na : forall g users, PyDict.get all g = Some users -> NoDup users).
  { unfold all. destruct (PyDict.mem _ _); auto. intros g users.
    destruct (string_dec game_id g) as [<-|D].
    - rewrite get_set_eq. intros [= <-]. constructor.
    - rewrite get_set_ne by assumption. apply N. }
  split; [now apply wf_set|].
  intros g users. destruct (string_dec game_id g) as [<-|D].
  - rewrite get_set_eq. intros [= <-].
    assert (N0 : NoDup (match PyDict.get all game_id with
                        | Some u => u | None => [] end)).
    { destruct (PyDict.get all game_id) eqn:G;
        [now apply (Na game_id) | constructor]. }
    destruct (In_users user _) eqn:I; auto.
    apply NoDup_snoc; auto. intros J. apply In_users_iff in J. congruence.
  - rewrite get_set_ne by assumption. apply Na.
Qed.

Lemma users_wf_reset game_id h :
  users_wf (users_already_voted h) ->
  users_wf (users_already_voted (reset_users_voted_moves game_id h)).
Proof.
  intros [W N]. unfold reset_users_voted_moves.
  destruct (negb _); [now split|]. cbn. split; [now apply wf_set|].
  intros g users. destruct (string_dec game_id g) as [<-|D].
  - rewrite get_set_eq. intros [= <-]. constructor.
  - rewrite get_set_ne by assumption. apply N.
Qed.

Lemma bot_inv_set_user game_id user h :
  bot_inv h -> bot_inv (set_user_as_already_voted game_id user h).
Proof.
  intros (L & V & O & U & T).
  split; [exact L|]. split; [exact V|]. split; [exact O|]. split; [|exact T].
  now apply users_wf_set_user.
Qed.

Lemma bot_inv_reset game_id h :
  bot_inv h -> bot_inv (reset_users_voted_moves game_id h).
Proof.
  intros (L & V & O & U & T). unfold bot_inv. rewrite reset_bot_chess.
  split; [exact L|]. split; [exact V|]. split; [exact O|]. split; [|exact T].
  now apply users_wf_reset.
Qed.

Lemma bot_inv_add_vote game_id key h :
  bot_inv h ->
  bot_inv (set_bot_chess h
             (set_game_move_votes (bot_chess h)
                (add_vote (game_move_votes (bot_chess h)) game_id key))).
Proof.
  intros (L & V & O & U & T).
  split; [now apply add_vote_wf|]. split; [now apply add_vote_outer_wf|].
  split; [exact O|]. split; [exact U | exact T].
Qed.

Lemma bot_inv_update_ongoing_games fetch h :
  bot_inv h -> bot_inv (set_bot_chess h (update_ongoing_games fetch (bot_chess h))).
Proof.
  intros (L & V & O & U & T). destruct fetch as [games|].
  - split; [exact L|]. split; [exact V|]. split; [|split; [exact U | exact T]].
    apply (registry_of_wf games []). constructor.
  - split; [exact L|]. split; [exact V|]. split; [exact O|]. split; [exact U | exact T].
Qed.

Lemma set_bot_chess_same h : set_bot_chess h (bot_chess h) = h.
Proof. now destruct h. Qed.

Lemma bot_inv_treat_incoming_event fetch event h :
  bot_inv h ->
  bot_inv (set_bot_chess h (snd (treat_incoming_event fetch event (bot_chess h)))).
Proof.
  intros I. unfold treat_incoming_event, validate_challenge_event.
  destruct event; cbn [snd]; try (rewrite set_bot_chess_same; exact I).
  destruct (_ && _)%bool; cbn [snd]; now apply bot_inv_update_ongoing_games.
Qed.

Lemma bot_inv_treat_command command msg h :
  bot_inv h -> bot_inv (treat_command command msg h).
Proof.
  intros I. unfold treat_command.
  destruct (PyDict.mem command "!resign").
  - destruct (get_game_ids h) as [|game_id rest]; auto.
    cbn [vote_for_resign]. rewrite Tauto.if_same.
    apply bot_inv_set_user. now apply bot_inv_add_vote.
  - now rewrite Tauto.if_same.
Qed.

Lemma bot_inv_treat_move_msg SAN_REGEX_match parse_san move msg h :
  bot_inv h -> bot_inv (treat_move_msg SAN_REGEX_match parse_san move msg h).
Proof.
  intros I. unfold treat_move_msg.
  destruct (get_game_ids h) as [|game_id rest]; auto.
  destruct (get_has_user_already_voted _ _ _); auto.
  unfold vote_for_move. destruct (negb _).
  { now rewrite set_bot_chess_same. }
  destruct (vote_key _ _ _ _).
  - apply bot_inv_set_user. now apply bot_inv_add_vote.
  - now rewrite set_bot_chess_same.
Qed.

Lemma bot_inv_thread_make_move_handler_body ret game_id h :
  bot_inv h -> bot_inv (snd (thread_make_move_handler_body ret game_id h)).
Proof.
  intros I. pose proof I as (L & V & O & U & T).
  pose proof (thread_make_move_handler_body_wf ret game_id h L) as L'.
  revert L'. unfold thread_make_move_handler_body.
  destruct (PyDict.mem (ongoing_games _) _); cbn [negb].
  2:{ intros _. cbn [snd].
      split; [exact L|]. split; [exact V|]. split; [exact O|].
      split; [exact U|]. now apply NoDup_list_remove. }
  destruct (PyDict.get (game_move_votes _) game_id) as [votes|] eqn:G; [|auto].
  destruct (Nat.eqb _ 0); [auto|].
  destruct (String.eqb _ _).
  2:{ intros _. cbn [snd]. now apply bot_inv_reset. }
  destruct (anarchy_move _) as [move|]; [|auto].
  cbn [snd]. rewrite reset_bot_chess. intros L'.
  apply bot_inv_reset.
  split; [exact L'|]. split; [now apply wf_set|]. split; [exact O|].
  split; [exact U | exact T].
Qed.

Lemma bot_inv_thread_games_handler_body get_by_id h :
  bot_inv h ->
  bot_inv (set_bot_chess h (snd (thread_games_handler_body get_by_id (bot_chess h)))).
Proof.
  intros (L & V & O & U & T). unfold thread_games_handler_body.
  destruct (games_handler_for_spec get_by_id
              (PyDict.keys (ongoing_games (bot_chess h))) (bot_chess h))
    as (_ & EO & EV & _ & _ & _ & N).
  unfold bot_inv, ledger_wf. cbn [bot_chess set_bot_chess users_already_voted].
  rewrite EO, EV.
  split; [exact L|]. split; [exact V|]. split; [exact O|].
  split; [exact U | now apply N].
Qed.

Lemma bot_inv_init : bot_inv BotHandler_init.
Proof.
  split; [intros g v; discriminate|]. split; [constructor|].
  split; [constructor|]. split; [|constructor].
  split; [constructor | intros g v; discriminate].
Qed.

Section RunFacts.
Variable SAN_REGEX_match : string -> bool.
Variable parse_san : Board -> string -> option Move.

Lemma bot_inv_run_event e h :
  bot_inv h -> bot_inv (run_event SAN_REGEX_match parse_san e h).
Proof.
  intros I. destruct e as [msg| |fetch|fetch event|game_id ret|get_by_id];
    cbn [run_event].
  - unfold thread_twitch_chat_message, bind.
    destruct (get_command_from_msg (message msg)) as [[command|]|e]; auto.
    + now apply bot_inv_treat_command.
    + destruct (get_move_from_msg _ _); auto. now apply bot_inv_treat_move_msg.
  - exact I.
  - now apply bot_inv_update_ongoing_games.
  - now apply bot_inv_treat_incoming_event.
  - now apply bot_inv_thread_make_move_handler_body.
  - now apply bot_inv_thread_games_handler_body.
Qed.

Lemma bot_inv_run_events es : forall h,
  bot_inv h -> bot_inv (run_events SAN_REGEX_match parse_san es h).
Proof.
  induction es as [|e es IH]; intros h I; [exact I|].
  apply IH. now apply bot_inv_run_event.
Qed.

(** X13. Whatever the threads of the bot do from its start, one step at a
    time (chat lines, copies of the game ids, refreshes of the registry,
    incoming events, iterations of the arbiters and of the games handler,
    in any order and with any answers of the servers): no game has two
    arbiters registered, no user is recorded twice as having voted in a
    game, and every candidate of every round is listed once with a
    positive count. *)
Theorem reachable_states_are_well_formed es :
  let h := run_events SAN_REGEX_match parse_san es BotHandler_init in
  NoDup (thread_games (bot_chess h))
  /\ (forall game_id users,
        PyDict.get (users_already_voted h) game_id = Some users -> NoDup users)
  /\ (forall game_id votes,
        PyDict.get (game_move_votes (bot_chess h)) game_id = Some votes ->
        NoDup (PyDict.keys votes)
        /\ forall m, In m (PyDict.keys votes) -> 0 < count_of votes m).
Proof.
  cbv zeta.
  destruct (bot_inv_run_events es BotHandler_init bot_inv_init)
    as (L & V & O & U & T).
  split; [exact T|]. split; [exact (proj2 U)|].
  intros game_id votes G. destruct (L game_id votes G) as [W P].
  split; [exact W|]. intros m I. now apply count_of_pos.
Qed.

End RunFacts.

(** * Further properties: the overlay *)

Lemma split_on_nonempty sep s : split_on sep s <> [].
Proof.
  destruct s as [|c r]; cbn; [discriminate|].
  destruct (Ascii.eqb c sep); [discriminate|].
  destruct (split_on sep r); discriminate.
Qed.

Lemma split_on_app sep pre s :
  split_on sep (pre ++ String sep s) = split_on sep pre ++ split_on sep s.
Proof.
  induction pre as [|c r IH].
  - cbn. now rewrite Ascii.eqb_refl.
  - cbn [append split_on]. destruct (Ascii.eqb c sep).
    + now rewrite IH.
    + rewrite IH. pose proof (split_on_nonempty sep r) as N.
      destruct (split_on sep r) as [|w ws]; [contradiction | reflexivity].
Qed.

Lemma split_on_none sep s : contains sep s = false -> split_on sep s = [s].
Proof.
  induction s as [|c r IH]; cbn; auto.
  destruct (Ascii.eqb c sep); cbn; [discriminate|].
  intros C. now rewrite (IH C).
Qed.

Lemma last_app_nonempty {A : Type} (l1 l2 : list A) d :
  l2 <> [] -> last (l1 ++ l2) d = last l2 d.
Proof.
  intros N. induction l1 as [|x l1 IH]; auto.
  cbn [app]. change (last (x :: l1 ++ l2) d)
    with (match l1 ++ l2 with [] => x | _ :: _ => last (l1 ++ l2) d end).
  destruct (l1 ++ l2) eqn:E; auto.
  apply app_eq_nil in E. destruct E. contradiction.
Qed.

Lemma get_game_id_from_url_obs_url game_id :
  contains "/" game_id = false ->
  get_game_id_from_url (obs_url game_id) = game_id.
Proof.
  intros C. unfold get_game_id_from_url.
  change (obs_url game_id) with ("http://www.lichess.org" ++ String "/" game_id)%string.
  rewrite split_on_app, last_app_nonempty by apply split_on_nonempty.
  now rewrite split_on_none.
Qed.

(** X14. The address that [update_obs_json_url] writes for a game and
    [get_game_id_from_url] are inverse: for a game id without a slash,
    the id read back from the written address is the id itself. *)
Theorem game_id_read_back_from_written_url game_id :
  contains "/" game_id = false ->
  get_game_id_from_url (obs_url game_id) = game_id.
Proof. exact (get_game_id_from_url_obs_url game_id). Qed.

(** X15. While a game is ongoing, an iteration of the overlay thread
    rewrites the address exactly when the first ongoing game is not the
    one whose address the file already shows; it then writes the address
    of that game and reads the file again, and it asks nothing else. *)
Theorem overlay_rewritten_iff_game_changed acc_info reread game_id rest shown j s :
  contains "/" shown = false ->
  last_json s = Some j ->
  url j = obs_url shown ->
  obs_calls (thread_obs_update_body acc_info reread (game_id :: rest) s)
  = if String.eqb game_id shown then []
    else [update_obs_json_url_call game_id; get_obs_info_json_call].
Proof.
  intros C L U. unfold thread_obs_update_body.
  cbn [List.length Nat.eqb Nat.ltb Nat.leb andb hd].
  rewrite Bool.andb_false_r, L, U, get_game_id_from_url_obs_url by exact C.
  destruct (String.eqb game_id shown); cbn [negb]; [reflexivity|].
  destruct reread; reflexivity.
Qed.

Lemma thread_obs_update_body_WDL acc_info reread games_ids s :
  match thread_obs_update_body acc_info reread games_ids s with
  | obs_next calls s' =>
      (WDL_writes calls + (if has_updated_wdl s' then 0 else 1)
       <= (if has_updated_wdl s then 0 else 1))%nat
  | obs_raised calls =>
      (WDL_writes calls <= (if has_updated_wdl s then 0 else 1))%nat
  end.
Proof.
  unfold thread_obs_update_body, WDL_writes.
  destruct games_ids as [|game_id rest]; cbn [List.length Nat.eqb Nat.ltb Nat.leb hd].
  - rewrite Bool.andb_true_r.
    destruct (has_updated_wdl s); cbn [negb].
    + cbn. lia.
    + destruct acc_info as [[[w d] l]|]; cbn; lia.
  - rewrite Bool.andb_false_r.
    destruct (last_json s) as [j|]; [|cbn; lia].
    destruct (negb _).
    + destruct reread; cbn; destruct (has_updated_wdl s); lia.
    + cbn. destruct (has_updated_wdl s); lia.
Qed.

Lemma WDL_writes_app a b : WDL_writes (a ++ b) = (WDL_writes a + WDL_writes b)%nat.
Proof. unfold WDL_writes. now rewrite filter_app, length_app. Qed.

Lemma thread_obs_update_WDL inputs : forall s,
  (WDL_writes (thread_obs_update inputs s)
   <= (if has_updated_wdl s then 0 else 1))%nat.
Proof.
  induction inputs as [|[[acc_info reread] games_ids] inputs IH]; intros s.
  - cbn. destruct (has_updated_wdl s); lia.
  - cbn [thread_obs_update].
    pose proof (thread_obs_update_body_WDL acc_info reread games_ids s) as B.
    destruct (thread_obs_update_body acc_info reread games_ids s) as [calls s'|calls];
      [|exact B].
    rewrite WDL_writes_app. specialize (IH s'). lia.
Qed.

(** X16. However long the overlay thread runs and whatever games come
    and go, it writes the win, draw and loss counts at most once, and
    never again once it has written them: nothing sets [has_updated_wdl]
    back to [False], so the counts shown are never refreshed after later
    games. *)
Theorem WDL_written_at_most_once inputs s :
  (WDL_writes (thread_obs_update inputs s) <= 1)%nat
  /\ (has_updated_wdl s = true -> WDL_writes (thread_obs_update inputs s) = 0%nat).
Proof.
  pose proof (thread_obs_update_WDL inputs s) as B.
  destruct (has_updated_wdl s); split; try lia; discriminate.
Qed.

(** * Further properties: the chat *)

Lemma In_users_snoc x l y :
  In_users x (l ++ [y]) = (In_users x l || String.eqb y x)%bool.
Proof. unfold In_users. rewrite existsb_app. cbn. now rewrite Bool.orb_false_r. Qed.

Lemma get_has_after_set game_id user game_id' user' h :
  get_has_user_already_voted game_id user
    (set_user_as_already_voted game_id' user' h)
  = ((String.eqb game_id game_id' && String.eqb user user')
     || get_has_user_already_voted game_id user h)%bool.
Proof.
  unfold get_has_user_already_voted, set_user_as_already_voted. cbv zeta.
  cbn [users_already_voted set_users_already_voted].
  destruct (String.eqb game_id game_id') eqn:E; cbn [andb orb].
  - apply String.eqb_eq in E. subst game_id'. rewrite get_set_eq.
    unfold PyDict.mem.
    destruct (PyDict.get (users_already_voted h) game_id) as [users|] eqn:G.
    + rewrite G. destruct (In_users user' users) eqn:I.
      * destruct (String.eqb user user') eqn:U; auto.
        apply String.eqb_eq in U. subst. now rewrite I.
      * rewrite In_users_snoc, (String.eqb_sym user' user). apply Bool.orb_comm.
    + rewrite get_set_eq. cbn [In_users existsb app orb].
      rewrite (String.eqb_sym user' user). now rewrite !Bool.orb_false_r.
  - apply String.eqb_neq in E.
    rewrite get_set_ne by congruence.
    destruct (PyDict.mem (users_already_voted h) game_id'); auto.
    now rewrite get_set_ne by congruence.
Qed.

Lemma get_has_after_reset game_id user game_id' h :
  get_has_user_already_voted game_id user (reset_users_voted_moves game_id' h)
  = (negb (String.eqb game_id game_id')
     && get_has_user_already_voted game_id user h)%bool.
Proof.
  destruct (String.eqb game_id game_id') eqn:E; cbn [negb andb].
  - apply String.eqb_eq in E. subst. apply reset_clears_flags.
  - apply String.eqb_neq in E. unfold get_has_user_already_voted.
    now rewrite reset_other_game by congruence.
Qed.

(** X17. The record of who has voted behaves as a set of pairs of a game
    and a user: after [set_user_as_already_voted] a pair is recorded iff
    it is the new one or was recorded before, and after
    [reset_users_voted_moves] iff it was recorded and belongs to another
    game. *)
Theorem voted_record_is_a_set_of_pairs game_id user game_id' user' h :
  get_has_user_already_voted game_id user
    (set_user_as_already_voted game_id' user' h)
  = ((String.eqb game_id game_id' && String.eqb user user')
     || get_has_user_already_voted game_id user h)%bool
  /\ get_has_user_already_voted game_id user
       (reset_users_voted_moves game_id' h)
     = (negb (String.eqb game_id game_id')
        && get_has_user_already_voted game_id user h)%bool.
Proof. split; [apply get_has_after_set | apply get_has_after_reset]. Qed.

Lemma treat_command_game_ids command msg h :
  get_game_ids (treat_command command msg h) = get_game_ids h.
Proof.
  unfold treat_command. destruct (PyDict.mem command "!resign").
  - destruct (get_game_ids h) as [|g r] eqn:I; auto.
    cbn [vote_for_resign]. now rewrite Tauto.if_same.
  - now rewrite Tauto.if_same.
Qed.

Lemma treat_command_no_game command msg h :
  get_game_ids h = [] -> treat_command command msg h = h.
Proof.
  intros I. unfold treat_command. rewrite I.
  destruct (PyDict.mem command "!resign"); auto. now rewrite Tauto.if_same.
Qed.

Section ChatFacts.
Variable SAN_REGEX_match : string -> bool.
Variable parse_san : Board -> string -> option Move.

Lemma treat_move_msg_game_ids move msg h :
  get_game_ids (treat_move_msg SAN_REGEX_match parse_san move msg h)
  = get_game_ids h.
Proof.
  unfold treat_move_msg. destruct (get_game_ids h) as [|g r] eqn:I; auto.
  destruct (get_has_user_already_voted _ _ _); auto.
  destruct (vote_for_move _ _ _ _ _) as [[|] b]; cbn; auto.
Qed.

(** X18. One vote per user and round, as far as moves go: once a chat
    line of a user has been counted (a [!resign] command, or a move that
    [vote_for_move] accepted), a following line of the same user that is
    not a command changes nothing. *)
Theorem counted_user_cannot_vote_for_a_move m1 m2 h game_id rest :
  get_game_ids h = game_id :: rest ->
  username m2 = username m1 ->
  get_command_from_msg (message m2) = Value None ->
  ((exists arg,
      get_command_from_msg (message m1) = Value (Some [("!resign", arg)]))
   \/ (get_command_from_msg (message m1) = Value None
       /\ exists move,
            get_move_from_msg (message m1) false = Some move
            /\ fst (vote_for_move SAN_REGEX_match parse_san game_id move
                      (bot_chess h)) = true)) ->
  thread_twitch_chat_messages SAN_REGEX_match parse_san [m1; m2] h
  = thread_twitch_chat_messages SAN_REGEX_match parse_san [m1] h.
Proof.
  intros I U C2 C1.
  assert (S : exists h1,
             thread_twitch_chat_message SAN_REGEX_match parse_san m1 h = Value h1
             /\ get_game_ids h1 = game_id :: rest
             /\ get_has_user_already_voted game_id (username m1) h1 = true).
  { unfold thread_twitch_chat_message, bind.
    destruct C1 as [[arg C1]|(C1 & move & G & V)]; rewrite C1.
    - eexists. split; [reflexivity|]. split.
      + now rewrite treat_command_game_ids.
      + now apply treat_command_resign_marks with (rest := rest).
    - rewrite G. eexists. split; [reflexivity|]. split.
      + now rewrite treat_move_msg_game_ids.
      + now apply treat_move_msg_marks with (rest := rest). }
  destruct S as (h1 & E1 & I1 & V1).
  assert (E2 : thread_twitch_chat_message SAN_REGEX_match parse_san m2 h1 = Value h1).
  { unfold thread_twitch_chat_message, bind. rewrite C2.
    destruct (get_move_from_msg (message m2) false) as [move|]; [|reflexivity].
    rewrite (treat_move_msg_voted SAN_REGEX_match parse_san move m2 h1 game_id rest I1);
      [reflexivity|]. now rewrite U. }
  cbn [thread_twitch_chat_messages]. rewrite E1. cbn [bind]. rewrite E2. reflexivity.
Qed.

Lemma thread_twitch_chat_message_no_game msg h :
  get_game_ids h = [] -> message msg <> "" ->
  thread_twitch_chat_message SAN_REGEX_match parse_san msg h = Value h.
Proof.
  intros I N. unfold thread_twitch_chat_message, bind.
  destruct (get_command_from_msg (message msg)) as [[command|]|e] eqn:C.
  - now rewrite treat_command_no_game.
  - destruct (get_move_from_msg _ _); auto.
    unfold treat_move_msg. now rewrite I.
  - unfold get_command_from_msg in C. destruct (message msg) as [|c r]; [congruence|].
    destruct (negb _); [discriminate|]. destruct (Nat.eqb _ _); discriminate.
Qed.

(** X19. While the chat thread knows of no game ([game_ids] is empty),
    no chat line changes anything: whatever the non-empty lines of a
    batch say, no vote is counted and no user is recorded. *)
Theorem chat_without_game_changes_nothing new_messages h :
  get_game_ids h = [] ->
  Forall (fun msg => message msg <> "") new_messages ->
  thread_twitch_chat_body SAN_REGEX_match parse_san (Some new_messages) h = Value h.
Proof.
  intros I F. cbn [thread_twitch_chat_body].
  induction F as [|msg rest N F IH]; [reflexivity|].
  cbn [thread_twitch_chat_messages]. unfold bind.
  now rewrite thread_twitch_chat_message_no_game.
Qed.

Lemma hd_split_space c r :
  hd EmptyString (split_space (String c r))
  = if Ascii.eqb c " " then EmptyString
    else String c (hd EmptyString (split_space r)).
Proof.
  cbn [split_space]. destruct (Ascii.eqb c " "); [reflexivity|].
  destruct (split_space r) eqn:E; [|reflexivity].
  destruct r; cbn in E; [discriminate|].
  destruct (Ascii.eqb _ _); [discriminate|]. destruct (split_space r); discriminate.
Qed.

Lemma split_space_nonempty s : split_space s <> [].
Proof.
  destruct s as [|c r]; cbn; [discriminate|].
  destruct (Ascii.eqb c " "); [discriminate|].
  destruct (split_space r); discriminate.
Qed.

(** X20. A chat line whose first word is [!challenge] does nothing,
    whatever follows the word and whoever sends it: it is recognised as
    a command, so it is not read as a move, and the command has no
    effect. *)
Theorem challenge_command_does_nothing msg h :
  hd EmptyString (split_space (message msg)) = "!challenge" ->
  thread_twitch_chat_message SAN_REGEX_match parse_san msg h = Value h.
Proof.
  intros H. unfold thread_twitch_chat_message, get_command_from_msg, bind.
  destruct (message msg) as [|c r] eqn:M; [discriminate H|].
  rewrite hd_split_space in H.
  destruct (Ascii.eqb c " ") eqn:S; [discriminate H|].
  injection H as Hc Hr. subst c. cbn [Ascii.eqb negb Bool.eqb].
  pose proof (split_space_nonempty (String "!" r)) as NE.
  destruct (split_space (String "!" r)) as [|w ws] eqn:P; [contradiction|].
  cbn [List.length Nat.eqb].
  assert (W : w = "!challenge").
  { pose proof (hd_split_space "!" r) as Q. rewrite P in Q. cbn in Q.
    rewrite Q, Hr. reflexivity. }
  subst w. reflexivity.
Qed.

End ChatFacts.

(** * Further properties: reading a move in a chat line *)

Lemma take_move_chars_spec s :
  all_chars is_move_char (take_move_chars s) = true
  /\ exists post,
       s = (take_move_chars s ++ post)%string
       /\ (post = EmptyString
           \/ exists c r, post = String c r /\ is_move_char c = false).
Proof.
  induction s as [|c r (A & post & E & M)]; cbn [take_move_chars].
  - split; [reflexivity|]. exists EmptyString. split; [reflexivity | now left].
  - destruct (is_move_char c) eqn:C.
    + split; [cbn [all_chars]; now rewrite C, A|].
      exists post. split; [cbn [append]; now rewrite <- E | exact M].
    + split; [reflexivity|]. exists (String c r). split; [reflexivity|].
      right. now exists c, r.
Qed.

Lemma first_word_spec s :
  match first_word s with
  | None => all_chars (fun c => negb (is_move_char c)) s = true
  | Some w =>
      w <> EmptyString
      /\ all_chars is_move_char w = true
      /\ exists pre post,
           s = (pre ++ w ++ post)%string
           /\ all_chars (fun c => negb (is_move_char c)) pre = true
           /\ (post = EmptyString
               \/ exists c r, post = String c r /\ is_move_char c = false)
  end.
Proof.
  induction s as [|c r IH]; [reflexivity|].
  cbn [first_word]. destruct (is_move_char c) eqn:C.
  - destruct (take_move_chars_spec (String c r)) as (A & post & E & M).
    split; [cbn [take_move_chars]; rewrite C; discriminate|].
    split; [exact A|]. exists EmptyString, post.
    split; [exact E|]. split; [reflexivity | exact M].
  - destruct (first_word r) as [w|].
    + destruct IH as (N & A & pre & post & E & P & M).
      split; [exact N|]. split; [exact A|].
      exists (String c pre), post. split; [cbn [append]; now rewrite <- E|].
      split; [cbn [all_chars]; now rewrite C, P | exact M].
    + cbn [all_chars]. now rewrite C, IH.
Qed.

(** X21. What [get_move_from_msg] reads in a chat line: nothing when the
    line has a space or no character of a move; otherwise the first
    maximal run of move characters, which is not empty, is preceded by
    no move character and is followed by none. *)
Theorem get_move_from_msg_reads_first_word message :
  (get_move_from_msg message false = None
   <-> has_space message = true
       \/ all_chars (fun c => negb (is_move_char c)) message = true)
  /\ forall w,
       get_move_from_msg message false = Some w ->
       has_space message = false
       /\ w <> EmptyString
       /\ all_chars is_move_char w = true
       /\ exists pre post,
            message = (pre ++ w ++ post)%string
            /\ all_chars (fun c => negb (is_move_char c)) pre = true
            /\ (post = EmptyString
                \/ exists c r, post = String c r /\ is_move_char c = false).
Proof.
  unfold get_move_from_msg. pose proof (first_word_spec message) as F.
  destruct (has_space message).
  - split; [split; auto | discriminate].
  - destruct (first_word message) as [w|] eqn:E.
    + destruct F as (N & A & pre & post & M & P & X). split.
      * split; [discriminate|]. intros [D|D]; [discriminate|].
        exfalso. rewrite M in D. clear - D A N.
        induction pre as [|c pre IH]; cbn in D.
        -- destruct w as [|c w]; [congruence|]. cbn in D, A.
           destruct (is_move_char c); discriminate.
        -- apply andb_prop in D. now apply IH.
      * intros w' [= <-]. split; [reflexivity|]. split; [exact N|].
        split; [exact A|]. now exists pre, post.
    + split; [split; auto | discriminate].
Qed.

Lemma all_move_chars_no_space s :
  all_chars is_move_char s = true -> has_space s = false.
Proof.
  induction s as [|c r IH]; cbn; auto.
  intros A. apply andb_prop in A. destruct A as [C A]. rewrite (IH A).
  destruct (Ascii.eqb c " ") eqn:E; auto.
  apply Ascii.eqb_eq in E. subst c. discriminate C.
Qed.

Lemma take_move_chars_all s :
  all_chars is_move_char s = true -> take_move_chars s = s.
Proof.
  induction s as [|c r IH]; cbn; auto.
  intros A. apply andb_prop in A. destruct A as [C A]. now rewrite C, (IH A).
Qed.

(** X22. A chat line that is one word of move characters (["e4"],
    ["Nf3+"], ["e7e8q"]) is read as a move in full. *)
Theorem clean_word_is_read_in_full message :
  message <> EmptyString ->
  all_chars is_move_char message = true ->
  get_move_from_msg message false = Some message.
Proof.
  intros N A. unfold get_move_from_msg.
  rewrite (all_move_chars_no_space message A).
  destruct message as [|c r]; [congruence|].
  cbn [first_word]. pose proof A as A'. cbn [all_chars] in A'.
  apply andb_prop in A'. destruct A' as [C _]. rewrite C.
  now rewrite take_move_chars_all.
Qed.

Lemma get_is_uci_inv s :
  get_is_uci s = true ->
  exists c1 c2 c3 c4 r,
    s = String c1 (String c2 (String c3 (String c4 r)))
    /\ get_is_uci (String c1 (String c2 (String c3 (String c4 EmptyString)))) = true.
Proof.
  destruct s as [|c1 [|c2 [|c3 [|c4 r]]]]; try discriminate.
  intros H. now exists c1, c2, c3, c4, r.
Qed.

Lemma first_uci_spec s w :
  first_uci s = Some w ->
  String.length w = 4%nat /\ get_is_uci w = true
  /\ exists pre post, s = (pre ++ w ++ post)%string.
Proof.
  induction s as [|c r IH]; [discriminate|].
  cbn [first_uci]. destruct (get_is_uci (String c r)) eqn:U.
  - intros [= <-]. clear IH.
    destruct (get_is_uci_inv _ U) as (c1 & c2 & c3 & c4 & t & E & V).
    injection E as -> ->. cbn [substring].
    replace (substring 0 0 t) with EmptyString by (now destruct t).
    split; [reflexivity|]. split; [exact V|].
    exists EmptyString, t. reflexivity.
  - intros H. destruct (IH H) as (L & V & pre & post & E).
    split; [exact L|]. split; [exact V|].
    exists (String c pre), post. cbn [append]. now rewrite <- E.
Qed.

(** X23. With [uci=True], [get_move_from_msg] gives only moves that
    [vote_for_move] counts: the move read is four characters of the line
    in coordinate form, and a vote for it is accepted and counted under
    that text whatever the game and the registry. *)
Theorem coordinate_move_read_is_always_counted message w :
  get_move_from_msg message true = Some w ->
  String.length w = 4%nat
  /\ (exists pre post, message = (pre ++ w ++ post)%string)
  /\ forall SAN_REGEX_match parse_san game_id b,
       vote_for_move SAN_REGEX_match parse_san game_id w b
       = (true, set_game_move_votes b
                  (add_vote (game_move_votes b) game_id (CStr w))).
Proof.
  unfold get_move_from_msg. destruct (has_space message); [discriminate|].
  intros H. destruct (first_uci_spec message w H) as (L & V & E).
  split; [exact L|]. split; [exact E|].
  intros SAN_REGEX_match parse_san game_id b.
  unfold vote_for_move, get_is_move_fmt_valid, vote_key. now rewrite V.
Qed.

(** X24. For a game that is not in the registry, [vote_for_move] counts
    exactly the votes in coordinate form: an abbreviated move is refused
    (there is no board to read it on) and leaves the votes as they were,
    a coordinate move is counted although the game is not ongoing. *)
Theorem votes_for_a_game_not_ongoing SAN_REGEX_match parse_san game_id move b :
  PyDict.mem (ongoing_games b) game_id = false ->
  vote_for_move SAN_REGEX_match parse_san game_id move b
  = if get_is_uci move
    then (true, set_game_move_votes b
                  (add_vote (game_move_votes b) game_id (CStr move)))
    else (false, b).
Proof.
  unfold PyDict.mem. intros M.
  unfold vote_for_move, get_is_move_fmt_valid, vote_key, get_board_from_game.
  destruct (PyDict.get (ongoing_games b) game_id); [discriminate|].
  destruct (get_is_uci move); cbn [negb]; [reflexivity|].
  destruct (SAN_REGEX_match move); reflexivity.
Qed.

(** * Further properties: from the chat to the board *)




Lemma body_other_mode ret game_id h :
  String.eqb (mode (bot_chess h)) "anarchy" = false ->
  submitted_moves (snd (fst (thread_make_move_handler_body ret game_id h))) = []
  /\ game_move_votes (bot_chess (snd (thread_make_move_handler_body ret game_id h)))
     = game_move_votes (bot_chess h)
  /\ mode (bot_chess (snd (thread_make_move_handler_body ret game_id h)))
     = mode (bot_chess h).
Proof.
  intros M. unfold thread_make_move_handler_body.
  destruct (PyDict.mem (ongoing_games _) _); cbn [negb]; [|now cbn].
  destruct (PyDict.get (game_move_votes _) game_id) as [votes|]; [|now cbn].
  destruct (Nat.eqb _ 0); [now cbn|]. rewrite M. cbn [fst snd].
  rewrite reset_bot_chess. split; [|now split].
  now destruct (resign_rule _ _).
Qed.

(** X26. Only anarchy mode plays: in any other mode an arbiter never
    sends a move to the server and never removes a vote, however long it
    runs alone and however many votes there are. *)
Theorem no_move_outside_anarchy answers game_id : forall h,
  String.eqb (mode (bot_chess h)) "anarchy" = false ->
  submitted_moves (fst (thread_make_move_handler answers game_id h)) = []
  /\ game_move_votes (bot_chess (snd (thread_make_move_handler answers game_id h)))
     = game_move_votes (bot_chess h).
Proof.
  induction answers as [|ret answers IH]; intros h M; [now cbn|].
  cbn [thread_make_move_handler].
  destruct (body_other_mode ret game_id h M) as (S & V & M').
  destruct (thread_make_move_handler_body ret game_id h) as [[e calls] h'].
  cbn [fst snd] in S, V, M'.
  assert (M1 : String.eqb (mode (bot_chess h')) "anarchy" = false)
    by now rewrite M'.
  specialize (IH h' M1).
  destruct (thread_make_move_handler answers game_id h') as [calls' h2].
  cbn [fst snd] in IH. destruct IH as [S' V'].
  destruct e; cbn [fst snd]; rewrite ?submitted_moves_app, ?S, ?S', ?V', ?V;
    now split.
Qed.

(** * Witnesses of the further properties *)

Lemma resign_only_round_wf : round_wf resign_only_round.
Proof.
  split.
  - repeat constructor; cbn; intuition discriminate.
  - repeat constructor; cbn; lia.
Qed.

Lemma two_games_NoDup : NoDup (map gameId two_games).
Proof. repeat constructor; cbn; intuition discriminate. Qed.

Lemma total_counts_accepted_votes_witness :
  ledger_wf (bot_chess example_h)
  /\ round_total
       (round_of
          (game_move_votes
             (cast_votes start_SAN_REGEX_match start_parse_san "g1"
                [move_request "e4"; resign_request; move_request "castle"]
                (bot_chess example_h))) "g1")
     = round_total (round_of (game_move_votes (bot_chess example_h)) "g1")
       + Z.of_nat
           (List.length
              (filter (accepted start_SAN_REGEX_match start_parse_san "g1"
                         (bot_chess example_h))
                 [move_request "e4"; resign_request; move_request "castle"])).
Proof.
  assert (W : ledger_wf (bot_chess example_h))
    by exact (example_bot_wf _ _ example_round_wf).
  split; [exact W|].
  exact (total_counts_accepted_votes start_SAN_REGEX_match start_parse_san "g1"
           [move_request "e4"; resign_request; move_request "castle"]
           (bot_chess example_h) W).
Defined.

Lemma resign_vote_keeps_rule_firing_witness :
  resign_rule (round_of (game_move_votes (bot_chess resigning_h)) "g1")
    (PyDict.keys (round_of (game_move_votes (bot_chess resigning_h)) "g1")) = true
  /\ resign_rule
       (round_of (game_move_votes (snd (vote_for_resign "g1" (bot_chess resigning_h)))) "g1")
       (PyDict.keys
          (round_of (game_move_votes (snd (vote_for_resign "g1" (bot_chess resigning_h)))) "g1"))
     = true.
Proof.
  assert (R : resign_rule (round_of (game_move_votes (bot_chess resigning_h)) "g1")
                (PyDict.keys (round_of (game_move_votes (bot_chess resigning_h)) "g1"))
              = true)
    by (vm_compute; reflexivity).
  split; [exact R|].
  exact (resign_vote_keeps_rule_firing "g1" (bot_chess resigning_h)
           (example_bot_wf _ _ resigning_round_wf) R).
Defined.

Lemma resign_alone_resigns_every_cycle_witness :
  thread_make_move_handler [true; false; true] "g1" resign_only_h
  = (repeat (resign_game_call "g1") (List.length [true; false; true]), resign_only_h).
Proof.
  exact (resign_alone_resigns_every_cycle "g1" resign_only_h resign_only_round
           [true; false; true] eq_refl eq_refl eq_refl resign_only_round_wf eq_refl).
Defined.

Lemma arbiter_idle_without_votes_witness :
  thread_make_move_handler [true; false] "g1" idle_h = ([], idle_h).
Proof.
  exact (arbiter_idle_without_votes [true; false] "g1" idle_h eq_refl eq_refl).
Defined.

Lemma rejected_moves_tried_in_voting_order_witness :
  submitted_moves (fst (thread_make_move_handler (repeat false 3) "g1" example_h))
  = firstn 3 (non_resign
                (PyDict.keys (round_of (game_move_votes (bot_chess example_h)) "g1"))).
Proof.
  exact (rejected_moves_tried_in_voting_order 3 "g1" example_h eq_refl eq_refl
           (example_bot_wf _ _ example_round_wf)).
Defined.

Lemma arbiter_exit_unregisters_its_game_witness :
  fst (thread_make_move_handler_body true "g1" finished_h) = (loop_break, [])
  /\ (forall g,
        In g (thread_games (bot_chess (snd (thread_make_move_handler_body true "g1" finished_h))))
        <-> In g (thread_games (bot_chess finished_h)) /\ g <> "g1")
  /\ game_move_votes (bot_chess (snd (thread_make_move_handler_body true "g1" finished_h)))
     = game_move_votes (bot_chess finished_h)
  /\ users_already_voted (snd (thread_make_move_handler_body true "g1" finished_h))
     = users_already_voted finished_h.
Proof.
  exact (arbiter_exit_unregisters_its_game true "g1" finished_h eq_refl
           (or_introl eq_refl)
           (NoDup_cons "g1" (fun I : In "g1" [] => I) (NoDup_nil string))).
Defined.

Lemma games_handler_starts_missing_arbiters_witness :
  fst (fst (thread_games_handler_body (fun _ _ => Some true) two_games_bot)) = ["g2"]
  /\ thread_games (snd (thread_games_handler_body (fun _ _ => Some true) two_games_bot))
     = thread_games two_games_bot
       ++ fst (fst (thread_games_handler_body (fun _ _ => Some true) two_games_bot)).
Proof.
  split; [reflexivity|].
  exact (proj1 (games_handler_starts_missing_arbiters (fun _ _ => Some true)
                  two_games_bot
                  (NoDup_cons "g1" (fun I : In "g1" [] => I) (NoDup_nil string)))).
Defined.

Lemma refresh_then_read_witness :
  get_ongoing_game_ids (update_ongoing_games (Some two_games) (BotChess_init "anarchy"))
  = map gameId two_games.
Proof.
  exact (proj1 (refresh_then_read two_games (BotChess_init "anarchy") two_games_NoDup)).
Defined.

Lemma game_id_read_back_from_written_url_witness :
  get_game_id_from_url (obs_url "q7ZvsdUF") = "q7ZvsdUF".
Proof. exact (game_id_read_back_from_written_url "q7ZvsdUF" eq_refl). Defined.

Lemma overlay_rewritten_iff_game_changed_witness :
  obs_calls (thread_obs_update_body None (Value (Some example_obs_info)) ["g2"; "g1"]
               example_obs_loop)
  = if String.eqb "g2" "g1" then []
    else [update_obs_json_url_call "g2"; get_obs_info_json_call].
Proof.
  exact (overlay_rewritten_iff_game_changed None (Value (Some example_obs_info))
           "g2" ["g1"] "g1" example_obs_info example_obs_loop
           eq_refl eq_refl eq_refl).
Defined.

Lemma counted_user_cannot_vote_for_a_move_witness :
  thread_twitch_chat_messages start_SAN_REGEX_match start_parse_san
    [chat "alice" "e4"; chat "alice" "Nf3"] idle_h
  = thread_twitch_chat_messages start_SAN_REGEX_match start_parse_san
      [chat "alice" "e4"] idle_h.
Proof.
  exact (counted_user_cannot_vote_for_a_move start_SAN_REGEX_match start_parse_san
           (chat "alice" "e4") (chat "alice" "Nf3") idle_h "g1" []
           eq_refl eq_refl eq_refl
           (or_intror (conj eq_refl (ex_intro _ "e4" (conj eq_refl eq_refl))))).
Defined.

Lemma chat_without_game_changes_nothing_witness :
  thread_twitch_chat_body start_SAN_REGEX_match start_parse_san
    (Some [chat "alice" "e4"; chat "bob" "!resign"]) BotHandler_init
  = Value BotHandler_init.
Proof.
  apply (chat_without_game_changes_nothing start_SAN_REGEX_match start_parse_san
           [chat "alice" "e4"; chat "bob" "!resign"] BotHandler_init eq_refl).
  repeat constructor; discriminate.
Defined.

Lemma challenge_command_does_nothing_witness :
  thread_twitch_chat_message start_SAN_REGEX_match start_parse_san
    (chat "alice" "!challenge bob") example_h
  = Value example_h.
Proof.
  exact (challenge_command_does_nothing start_SAN_REGEX_match start_parse_san
           (chat "alice" "!challenge bob") example_h eq_refl).
Defined.

Lemma clean_word_is_read_in_full_witness :
  get_move_from_msg "Nf3+" false = Some "Nf3+".
Proof.
  apply (clean_word_is_read_in_full "Nf3+"); [discriminate | reflexivity].
Defined.

Lemma coordinate_move_read_is_always_counted_witness :
  vote_for_move start_SAN_REGEX_match start_parse_san "g9" "e2e4"
    (BotChess_init "anarchy")
  = (true, set_game_move_votes (BotChess_init "anarchy")
             (add_vote (game_move_votes (BotChess_init "anarchy")) "g9" (CStr "e2e4"))).
Proof.
  exact (proj2 (proj2 (coordinate_move_read_is_always_counted "gg:e2e4!" "e2e4" eq_refl))
           start_SAN_REGEX_match start_parse_san "g9" (BotChess_init "anarchy")).
Defined.

Lemma votes_for_a_game_not_ongoing_witness :
  vote_for_move start_SAN_REGEX_match start_parse_san "g1" "e4" (BotChess_init "anarchy")
  = if get_is_uci "e4"
    then (true, set_game_move_votes (BotChess_init "anarchy")
                  (add_vote (game_move_votes (BotChess_init "anarchy")) "g1" (CStr "e4")))
    else (false, BotChess_init "anarchy").
Proof.
  exact (votes_for_a_game_not_ongoing start_SAN_REGEX_match start_parse_san "g1" "e4"
           (BotChess_init "anarchy") eq_refl).
Defined.


Lemma no_move_outside_anarchy_witness :
  submitted_moves (fst (thread_make_move_handler [true; true] "g1" democracy_h)) = []
  /\ game_move_votes (bot_chess (snd (thread_make_move_handler [true; true] "g1" democracy_h)))
     = game_move_votes (bot_chess democracy_h).
Proof.
  exact (no_move_outside_anarchy [true; true] "g1" democracy_h eq_refl).
Defined.
